(** * download_publications.py: a shallow embedding and its properties

    The script resolves DOIs to PDF locations, downloads the PDFs with
    retries, and merges records into a grouped catalog
    (publications.json).  This development embeds

    - [clean_doi]                       (identifier normaliser),
    - [resolve_doi_to_pdf_url] and its helpers [get_publisher_pdf_patterns],
      [find_pdf_in_meta_tags], [is_likely_pdf_url]  (location resolver),
    - [download_pdf]                    (resilient fetcher),
    - [generate_publication_id], [add_publication_to_json],
      [load_publications_json], [save_publications_json],
      [update_publications_json_file]   (catalog merger),
    - [clean_filename] and the file name built by [main],
    - [authenticate_rsna]               (publisher login),

    and proves properties of them.

    Modelling conventions.  A Python [str] is a Rocq [string] whose
    characters are the code points 0..255; the character classes used by
    the script ([str.isspace], [str.lower], [int()], the regular-expression
    classes) are written out for that range.  Network and file-system
    effects are explicit: the network is an oracle answering each request,
    the file system is a finite map from paths to contents, and functions
    return the new state next to their result.  A caught exception is the
    value the [except] clause returns; library calls that can raise
    ([urljoin], [urlparse], [int], [open], [os.rename], [json.dump], the
    reads of a streamed response) have an outcome for it.

    The definitions come first, one module per component; the properties
    follow, one section per component. *)

From Stdlib Require Import ZArith NArith Bool Ascii String List Lia.
From Stdlib Require Import Permutation Sorted.
From stdpp Require Import base strings list gmap.

Local Open Scope Z_scope.

(* ===================================================================== *)
(** * Python string primitives *)
(* ===================================================================== *)

Module PyStr.

Definition ord (c : ascii) : N := N_of_ascii c.
Definition chr (n : N) : ascii := ascii_of_N n.

Definition between (lo hi n : N) : bool := ((lo <=? n) && (n <=? hi))%N.

(** [str.isspace] on a single character, code points below 256. *)
Definition isspace (c : ascii) : bool :=
  let n := ord c in
  between 9 13 n || between 28 32 n || (n =? 133)%N || (n =? 160)%N.

(** The white space that [int()] skips around a numeral. *)
Definition int_space (c : ascii) : bool :=
  let n := ord c in
  between 9 13 n || (n =? 32)%N || (n =? 133)%N || (n =? 160)%N.

Definition is_ascii_upper (c : ascii) : bool := between 65 90 (ord c).
Definition is_ascii_lower (c : ascii) : bool := between 97 122 (ord c).
Definition is_ascii_alpha (c : ascii) : bool :=
  is_ascii_upper c || is_ascii_lower c.
Definition is_digit (c : ascii) : bool := between 48 57 (ord c).
Definition is_ascii_alnum (c : ascii) : bool := is_ascii_alpha c || is_digit c.

(** [str.lower] on one character: A-Z and the Latin-1 capitals
    (U+00C0..U+00DE without the multiplication sign) move up by 32. *)
Definition lower_char (c : ascii) : ascii :=
  let n := ord c in
  if between 65 90 n || (between 192 222 n && negb (n =? 215)%N)
  then chr (n + 32) else c.

Fixpoint lower (s : string) : string :=
  match s with
  | EmptyString => EmptyString
  | String c r => String (lower_char c) (lower r)
  end.

(** [s.startswith(p)] *)
Fixpoint startswith (s p : string) {struct p} : bool :=
  match p with
  | EmptyString => true
  | String b p' =>
      match s with
      | EmptyString => false
      | String a s' => if Ascii.eqb a b then startswith s' p' else false
      end
  end.

Fixpoint rev_onto (s acc : string) : string :=
  match s with
  | EmptyString => acc
  | String c r => rev_onto r (String c acc)
  end.

Definition reverse (s : string) : string := rev_onto s EmptyString.

(** [s.endswith(p)] *)
Definition endswith (s p : string) : bool :=
  startswith (reverse s) (reverse p).

(** [sub in s] *)
Fixpoint contains (s sub : string) : bool :=
  startswith s sub ||
  match s with
  | EmptyString => false
  | String _ r => contains r sub
  end.

(** [any(k in s for k in keys)] *)
Definition contains_any (s : string) (keys : list string) : bool :=
  existsb (contains s) keys.

(** [s.replace(old, new)] for a non-empty [old]: a left-to-right scan
    replacing every non-overlapping occurrence.  [skip] counts the
    characters of a matched occurrence still to be dropped. *)
Fixpoint replace_scan (old new : string) (skip : nat) (s : string) : string :=
  match s with
  | EmptyString => EmptyString
  | String c r =>
      match skip with
      | S k => replace_scan old new k r
      | O =>
          if startswith s old
          then new +:+ replace_scan old new (Nat.pred (String.length old)) r
          else String c (replace_scan old new O r)
      end
  end.

Fixpoint interleave (new s : string) : string :=
  match s with
  | EmptyString => new
  | String c r => new +:+ String c (interleave new r)
  end.

Definition replace (s old new : string) : string :=
  match old with
  | EmptyString => interleave new s
  | _ => replace_scan old new O s
  end.

(** [s.lstrip()], [s.rstrip()], [s.strip()], parametric in the class of
    characters removed. *)
Fixpoint lstrip_by (f : ascii -> bool) (s : string) : string :=
  match s with
  | EmptyString => EmptyString
  | String c r => if f c then lstrip_by f r else s
  end.

Fixpoint rstrip_by (f : ascii -> bool) (s : string) : string :=
  match s with
  | EmptyString => EmptyString
  | String c r =>
      match rstrip_by f r with
      | EmptyString => if f c then EmptyString else String c EmptyString
      | r' => String c r'
      end
  end.

Definition strip_by (f : ascii -> bool) (s : string) : string :=
  lstrip_by f (rstrip_by f s).

Definition strip (s : string) : string := strip_by isspace s.

Fixpoint filter_chars (f : ascii -> bool) (s : string) : string :=
  match s with
  | EmptyString => EmptyString
  | String c r => if f c then String c (filter_chars f r) else filter_chars f r
  end.

(** [all(f(c) for c in s)] *)
Fixpoint all_chars (f : ascii -> bool) (s : string) : bool :=
  match s with
  | EmptyString => true
  | String c r => f c && all_chars f r
  end.

(** [s[:n]] *)
Fixpoint slice_to (n : nat) (s : string) : string :=
  match n, s with
  | S k, String c r => String c (slice_to k r)
  | _, _ => EmptyString
  end.

(** [s[n:]] *)
Fixpoint slice_from (n : nat) (s : string) : string :=
  match n, s with
  | S k, String _ r => slice_from k r
  | _, _ => s
  end.

Definition is_empty (s : string) : bool :=
  match s with EmptyString => true | _ => false end.

(** [s.split()]: the maximal runs of non-space characters. *)
Fixpoint split_from (cur : string) (s : string) : list string :=
  match s with
  | EmptyString => if is_empty cur then [] else [cur]
  | String c r =>
      if isspace c
      then (if is_empty cur then split_from EmptyString r
            else cur :: split_from EmptyString r)
      else split_from (cur +:+ String c EmptyString) r
  end.

Definition split (s : string) : list string := split_from EmptyString s.

(** [sep.join(l)] *)
Fixpoint join (sep : string) (l : list string) : string :=
  match l with
  | [] => EmptyString
  | [w] => w
  | w :: rest => w +:+ sep +:+ join sep rest
  end.

(** [re.sub(r'_+', '_', s)]: [prev] tells whether the previous character
    was an underscore. *)
Fixpoint collapse_from (prev : bool) (s : string) : string :=
  match s with
  | EmptyString => EmptyString
  | String c r =>
      if Ascii.eqb c "_"
      then (if prev then collapse_from true r
            else String c (collapse_from true r))
      else String c (collapse_from false r)
  end.

Definition collapse_underscores (s : string) : string :=
  collapse_from false s.

(** [int(s)] on a string: optional white space, an optional sign, then
    decimal digits with single underscores allowed between digits.
    [None] stands for [ValueError]; it is also raised for a numeral of
    more than 4300 digits, the default of
    [sys.get_int_max_str_digits()]. *)
Definition digit_val (c : ascii) : Z := Z.of_N (ord c) - 48.

Fixpoint digits_value (acc : Z) (after_digit : bool) (s : string) : option Z :=
  match s with
  | EmptyString => if after_digit then Some acc else None
  | String c r =>
      if is_digit c then digits_value (10 * acc + digit_val c) true r
      else if Ascii.eqb c "_"
           then (if after_digit then digits_value acc false r else None)
           else None
  end.

Definition int_max_str_digits : Z := 4300.

Fixpoint count_digits (s : string) : Z :=
  match s with
  | EmptyString => 0
  | String c r => (if is_digit c then 1 else 0) + count_digits r
  end.

Definition numeral (s : string) : option Z :=
  if int_max_str_digits <? count_digits s then None
  else digits_value 0 false s.

Definition py_int (s : string) : option Z :=
  match strip_by int_space s with
  | String "+" r => numeral r
  | String "-" r => Z.opp <$> numeral r
  | t => numeral t
  end.

End PyStr.

(* ===================================================================== *)
(** * Identifier normaliser *)
(* ===================================================================== *)

Module Normalizer.
Import PyStr.

(** The prefixes tested by [clean_doi], in the order of its
    [if]/[elif] chain. *)
Definition recognized_prefixes : list string :=
  ["https://doi.org/"; "http://doi.org/"; "doi:"; "DOI:"]%string.

Definition clean_doi (doi : string) : string :=
  let doi := strip doi in
  if startswith doi "https://doi.org/" then replace doi "https://doi.org/" ""
  else if startswith doi "http://doi.org/" then replace doi "http://doi.org/" ""
  else if startswith doi "doi:" then replace doi "doi:" ""
  else if startswith doi "DOI:" then replace doi "DOI:" ""
  else doi.

(** Whether [clean_doi] logs its "doesn't start with '10.'" warning. *)
Definition clean_doi_warns (doi : string) : bool :=
  negb (startswith (clean_doi doi) "10.").

(** An input is trimmed when it has no white space at either end. *)
Definition trimmed (s : string) : Prop :=
  lstrip_by isspace s = s /\ rstrip_by isspace s = s.

(** The canonical form of the data model: trimmed and starting with
    "10.". *)
Definition canonical (s : string) : Prop :=
  trimmed s /\ startswith s "10." = true.

(** No recognised prefix at the start of [s]. *)
Definition unprefixed (s : string) : Prop :=
  existsb (startswith s) recognized_prefixes = false.

End Normalizer.

(* ===================================================================== *)
(** * Location resolver *)
(* ===================================================================== *)

Module Resolver.
Import PyStr Normalizer.

(** The parsed landing page, as far as the resolver looks at it: the
    [<a href=...>] elements in document order, each with its [href] and
    its [get_text(strip=True)], and the [<meta>] elements in document
    order with their optional [name] and [content] attributes. *)
Record anchor := { href : string; link_text : string }.
Record meta_tag := { meta_name : option string; meta_content : option string }.
Record soup := { anchors : list anchor; metas : list meta_tag }.

(** The answer to [requests.get(..., allow_redirects=True)]: the final
    URL after redirects, the status, and the parsed body. *)
Record response := { status_code : Z; url : string; content : soup }.

Inductive reply :=
| SSLError                 (* requests.exceptions.SSLError *)
| RequestError             (* any other exception of the request *)
| Reply (r : response).

(** [response.raise_for_status()] raises for 4xx and 5xx. *)
Definition raises_for_status (r : response) : bool :=
  (400 <=? status_code r) && (status_code r <? 600).

(** A candidate: the URL and the label of where it was found. *)
Definition candidate : Type := string * string.

Definition is_likely_pdf_url (u : string) : bool :=
  let url_lower := lower u in
  if endswith url_lower ".pdf" then true
  else contains_any url_lower
         ["pdf"; "download"; "filetype=pdf"; "content-type=application/pdf"]%string.

(** Python truth of an optional string attribute. *)
Definition truthy (o : option string) : bool :=
  match o with Some s => negb (is_empty s) | None => false end.

Definition has_name (n : string) (m : meta_tag) : bool :=
  match meta_name m with Some x => String.eqb x n | None => false end.

(** The loop over all meta tags of [find_pdf_in_meta_tags]. *)
Fixpoint first_pdf_content (ms : list meta_tag) : option string :=
  match ms with
  | [] => None
  | m :: rest =>
      let c := default EmptyString (meta_content m) in
      if negb (is_empty c) && contains (lower c) ".pdf" then Some c
      else first_pdf_content rest
  end.

Definition find_pdf_in_meta_tags (page : soup) : option string :=
  match List.find (has_name "citation_pdf_url") (metas page) with
  | Some pdf_meta =>
      if truthy (meta_content pdf_meta) then meta_content pdf_meta
      else first_pdf_content (metas page)
  | None => first_pdf_content (metas page)
  end.

(** [re.search(r'/pmc/articles/([^/]+)', url)], returning group 1. *)
Fixpoint until_slash (s : string) : string :=
  match s with
  | EmptyString => EmptyString
  | String c r => if Ascii.eqb c "/" then EmptyString else String c (until_slash r)
  end.

Fixpoint pmc_search (s : string) : option string :=
  let here :=
    if startswith s "/pmc/articles/"
    then (let g := until_slash (slice_from 14 s) in
          if is_empty g then None else Some g)
    else None in
  match here with
  | Some g => Some g
  | None => match s with
            | EmptyString => None
            | String _ r => pmc_search r
            end
  end.

(** [[(link['href'], label) for link in soup.find_all('a', href=True) if p(link)]] *)
Definition links_where (p : anchor -> bool) (label : string) (page : soup)
  : list candidate :=
  map (fun a => (href a, label)) (List.filter p (anchors page)).

Definition get_publisher_pdf_patterns (u : string) (page : soup) : list candidate :=
  if contains u "ncbi.nlm.nih.gov" then
    (if contains u "/pmc/articles/" then
       match pmc_search u with
       | Some pmc_id =>
           [("https://www.ncbi.nlm.nih.gov/pmc/articles/" +:+ pmc_id +:+ "/pdf/",
             "PMC pattern")]%string
       | None => []
       end
     else [])
    ++ links_where (fun a => contains (href a) "pdf" && contains (href a) "/pmc/")
         "PMC PDF link" page
  else if contains u "nature.com" then
    links_where (fun a => contains (href a) ".pdf" || contains (href a) "download")
      "Nature pattern" page
  else if contains u "sciencedirect.com" || contains u "elsevier.com" then
    links_where (fun a => contains (href a) "pdfdownload" || contains (href a) "pdf")
      "Elsevier pattern" page
  else if contains u "springer.com" || contains u "link.springer.com" then
    links_where (fun a => contains (href a) "content/pdf" || contains (href a) "download")
      "Springer pattern" page
  else if contains u "wiley.com" then
    links_where (fun a => contains (href a) "pdfdirect" || contains (href a) "pdf")
      "Wiley pattern" page
  else if contains u "ieee.org" then
    links_where (fun a => contains (href a) "pdf"
                          && contains (lower (link_text a)) "download")
      "IEEE pattern" page
  else [].

(** Strategy 1 of [resolve_doi_to_pdf_url]: the scan of all anchors. *)
Definition anchor_candidates (page : soup) : list candidate :=
  flat_map
    (fun a =>
       let text := lower (link_text a) in
       (if contains_any text ["pdf"; "download"; "full text"]%string
        then [(href a, "text: " +:+ text)]%string else [])
       ++
       (if contains_any (lower (href a)) [".pdf"; "pdf"; "download"]%string
        then [(href a, "href: " +:+ href a)]%string else []))
    (anchors page).

(** Strategy 3: the meta-tag candidate, when there is one.  An empty
    string is false for [if meta_pdf_url:]. *)
Definition meta_candidates (page : soup) : list candidate :=
  match find_pdf_in_meta_tags page with
  | Some m => if is_empty m then [] else [(m, "meta tag")]%string
  | None => []
  end.

(** How the loop over the candidates ends: with the first candidate
    that passes the URL-shape check, with no candidate left, or with an
    exception raised while a candidate was made absolute. *)
Inductive search :=
| Found (candidate_url : string)
| Exhausted
| Raised.

Section WithUrllib.
(** [urllib.parse] is not part of the script; the two ways it is used
    are parameters:
    [url_origin u] is [f"{urlparse(u).scheme}://{urlparse(u).netloc}"],
    [urljoin base u] is [urljoin(base, u)].
    Both raise [ValueError] on some inputs (an unbalanced bracket in the
    host part, for one); [None] stands for that. *)
Variable url_origin : string -> option string.
Variable urljoin : string -> string -> option string.

(** Relative candidates are made absolute against the landing page. *)
Definition absolute (publisher_url candidate_url : string) : option string :=
  if startswith candidate_url "/" then
    match url_origin publisher_url with
    | Some base_url => Some (base_url +:+ candidate_url)
    | None => None
    end
  else if negb (startswith candidate_url "http") then urljoin publisher_url candidate_url
  else Some candidate_url.

(** The loop "Process candidates and return the best match". *)
Fixpoint first_likely (publisher_url : string) (cs : list candidate) : search :=
  match cs with
  | [] => Exhausted
  | (candidate_url, _) :: rest =>
      match absolute publisher_url candidate_url with
      | Some u =>
          if is_likely_pdf_url u then Found u else first_likely publisher_url rest
      | None => Raised
      end
  end.

(** A candidate the loop passes over: it is made absolute without an
    exception and fails the URL-shape check. *)
Definition passed_over (publisher_url : string) (c : candidate) : Prop :=
  exists u, absolute publisher_url c.1 = Some u /\ is_likely_pdf_url u = false.

(** The candidates in the order in which the script pools them. *)
Definition pdf_candidates (publisher_url : string) (page : soup) : list candidate :=
  anchor_candidates page
  ++ get_publisher_pdf_patterns publisher_url page
  ++ meta_candidates page.

(** What [resolve_doi_to_pdf_url] does with a successful response.
    [None] is the [None] returned from the [except Exception] clause. *)
Definition resolve_response (r : response) : option string :=
  let publisher_url := url r in
  if endswith (lower publisher_url) ".pdf" then Some publisher_url
  else
    match first_likely publisher_url (pdf_candidates publisher_url (content r)) with
    | Found u => Some u
    | Exhausted => Some publisher_url
    | Raised => None
    end.

(** [get u verify] answers [requests.get(u, ..., verify=verify)]. *)
Definition resolve_doi_to_pdf_url (get : string -> bool -> reply) (doi : string)
  : option string :=
  let clean_doi_id := clean_doi doi in
  let doi_url := ("https://doi.org/" +:+ clean_doi_id)%string in
  match get doi_url true with
  | Reply r => if raises_for_status r then None else resolve_response r
  | SSLError =>
      match get doi_url false with
      | Reply r => if raises_for_status r then None else resolve_response r
      | _ => None
      end
  | RequestError => None
  end.
End WithUrllib.


(** A sample landing page: one anchor whose target
    contains "download", and a [citation_pdf_url] meta tag. *)
Definition landing_page : soup :=
  {| anchors := [ {| href := "https://example.org/download/1";
                     link_text := "Article" |} ];
     metas := [ {| meta_name := Some "citation_pdf_url";
                   meta_content := Some "https://example.org/files/1.pdf" |} ] |}%string.

(** The same page with a link in front whose target [urljoin] rejects. *)
Definition broken_page : soup :=
  {| anchors := {| href := "ftp://[bad/pdf"; link_text := "Mirror" |}
                :: anchors landing_page;
     metas := metas landing_page |}%string.

Definition landing : response :=
  {| status_code := 200; url := "https://example.org/article/1";
     content := landing_page |}.

Definition broken_landing : response :=
  {| status_code := 200; url := "https://example.org/article/1";
     content := broken_page |}.

End Resolver.

(* ===================================================================== *)
(** * Resilient fetcher *)
(* ===================================================================== *)

Module Fetcher.
Import PyStr.

(** A streamed response ([stream=True]).  [body] is the decoded content
    the connection delivers; when [truncated] holds the connection fails
    after delivering it, and the read that reaches the end of [body]
    raises.  [chunked] is [None] for a body delimited by its length or
    by the end of the connection, and [Some n] for a body sent with
    Transfer-Encoding: chunked whose first chunk has [n] bytes.
    [iter_content(n)] hands out the next [n] bytes the connection still
    holds (fewer at the end of the body or of a chunk); a byte read once
    is not delivered again. *)
Record response := {
  status_code : Z;
  content_type : option string;      (* the content-type header *)
  body : list Byte.byte;
  truncated : bool;
  chunked : option nat
}.

Inductive reply :=
| SSLError                 (* requests.exceptions.SSLError *)
| RequestError             (* timeout, connection error, ... *)
| Reply (r : response).

(** The world around one call: [get attempt verify] answers the request
    of the given loop iteration, [open_ok attempt] tells whether
    [open(filepath, 'wb')] succeeds there. *)
Record env := {
  get : nat -> bool -> reply;
  open_ok : nat -> bool
}.

(** What can be observed of a run besides its result. *)
Inductive event :=
| Attempt (number : Z)                     (* "Downloading (attempt n)" *)
| Request (user_agent : string) (verify : bool)
| Sleep (seconds : Z)
| WarnNotPdf.                               (* "URL may not be a PDF" *)

Definition user_agents : list string :=
  ["Mozilla/5.0 (Windows NT 10.0; Win64; x64) AppleWebKit/537.36 (KHTML, like Gecko) Chrome/91.0.4472.124 Safari/537.36";
   "Mozilla/5.0 (Macintosh; Intel Mac OS X 10_15_7) AppleWebKit/537.36 (KHTML, like Gecko) Chrome/91.0.4472.124 Safari/537.36";
   "Mozilla/5.0 (X11; Linux x86_64) AppleWebKit/537.36 (KHTML, like Gecko) Chrome/91.0.4472.124 Safari/537.36";
   "Mozilla/5.0 (Windows NT 10.0; Win64; x64; rv:89.0) Gecko/20100101 Firefox/89.0"]%string.

Definition user_agent (attempt : nat) : string :=
  nth (attempt mod List.length user_agents) user_agents EmptyString.

Definition raises_for_status (r : response) : bool :=
  (400 <=? status_code r) && (status_code r <? 600).

(** [b'%PDF'] *)
Definition pdf_signature : list Byte.byte :=
  [Byte.x25; Byte.x50; Byte.x44; Byte.x46].

Fixpoint bytes_startswith (b p : list Byte.byte) {struct p} : bool :=
  match p with
  | [] => true
  | y :: p' =>
      match b with
      | [] => false
      | x :: b' => Byte.eqb x y && bytes_startswith b' p'
      end
  end.

(** The files on disk: path to content. *)
Abbreviation files := (gmap string (list Byte.byte)).

Inductive outcome :=
| ReturnTrue               (* the function returns True *)
| NextAttempt.             (* the loop goes on *)

(** The test that decides whether the first bytes are looked at. *)
Definition announced_as_pdf (u : string) (r : response) : bool :=
  contains (lower (default EmptyString (content_type r))) "pdf"
  || endswith (lower u) ".pdf".

(** The clause [except Exception]: remove the file when it exists, back
    off when another attempt follows. *)
Definition on_exception (filepath : string) (max_retries : Z) (attempt : nat)
    (fs : files) : files * list event :=
  (delete filepath fs,
   if Z.of_nat attempt <? max_retries - 1
   then [Sleep (2 ^ Z.of_nat attempt)] else []).

(** What the response can still deliver when the file is opened:
    nothing readable any more ([iter_content] raises
    [StreamConsumedError]), or some content, after which the read may
    fail. *)
Inductive stream :=
| Unreadable
| Delivers (rest : list Byte.byte) (fails : bool).

(** The bytes [next(response.iter_content(1024), b'')] asks for: 1024,
    or the first chunk of a chunked body when that is shorter. *)
Definition first_read (r : response) : nat :=
  match chunked r with
  | Some n => Nat.min 1024 n
  | None => 1024%nat
  end.

(** "Check if response is actually a PDF": a response that is not
    announced as a PDF has its first bytes read.  [None] is an exception
    raised by that read.  Both [iter_content] calls read from the one
    connection of the response, so the bytes taken by the first are gone
    for the second.  When the first call delivered nothing, its iterator
    ran to its end and marked the content as consumed; the second call
    then raises.  Otherwise the first iterator is dropped unfinished: on
    a chunked body this closes the connection, and the second call
    delivers nothing. *)
Definition inspect (u : string) (r : response) : option (stream * list event) :=
  if announced_as_pdf u r then Some (Delivers (body r) (truncated r), [])
  else if truncated r && (List.length (body r) <? first_read r)%nat then None
  else
    match firstn (first_read r) (body r) with
    | [] => Some (Unreadable, [WarnNotPdf])
    | first_chunk =>
        let warning :=
          if bytes_startswith first_chunk pdf_signature then [] else [WarnNotPdf] in
        match chunked r with
        | Some _ => Some (Delivers [] false, warning)
        | None => Some (Delivers (skipn 1024 (body r)) (truncated r), warning)
        end
    end.

(** A response that passed [raise_for_status]: look at the first bytes
    when it is not announced as a PDF, open the file, write what the
    stream still delivers, check the size. *)
Definition store (u filepath : string) (max_retries : Z) (e : env)
    (attempt : nat) (r : response) (fs : files)
  : outcome * files * list event :=
  let fail fs evs :=
    let '(fs', evs') := on_exception filepath max_retries attempt fs in
    (NextAttempt, fs', evs ++ evs') in
  match inspect u r with
  | None => fail fs []
  | Some (s, evs) =>
      if open_ok e attempt then
        match s with
        | Unreadable => fail (<[filepath := []]> fs) evs
        | Delivers rest fails =>
            let fs1 := <[filepath := rest]> fs in
            if fails then fail fs1 evs
            else if 1000 <? Z.of_nat (List.length rest)
                 then (ReturnTrue, fs1, evs)
                 else (NextAttempt, delete filepath fs1, evs)
        end
      else fail fs evs
  end.

(** One iteration of [for attempt in range(max_retries)]. *)
Definition attempt_once (u filepath : string) (max_retries : Z) (e : env)
    (attempt : nat) (fs : files) : outcome * files * list event :=
  let ua := user_agent attempt in
  let started := [Attempt (Z.of_nat attempt + 1); Request ua true] in
  let fail evs :=
    let '(fs', evs') := on_exception filepath max_retries attempt fs in
    (NextAttempt, fs', evs ++ evs') in
  let after evs (res : outcome * files * list event) :=
    let '(o, fs', evs') := res in (o, fs', evs ++ evs') in
  match get e attempt true with
  | Reply r =>
      if raises_for_status r then
        (* except requests.exceptions.HTTPError *)
        if (status_code r =? 403) && (Z.of_nat attempt <? max_retries - 1)
        then (NextAttempt, fs, started ++ [Sleep 5])
        else fail started
      else after started (store u filepath max_retries e attempt r fs)
  | SSLError =>
      (* except requests.exceptions.SSLError: the same request again,
         verify=False; an HTTPError raised here is not handled by the
         sibling clause *)
      let started := started ++ [Request ua false] in
      match get e attempt false with
      | Reply r =>
          if raises_for_status r then fail started
          else after started (store u filepath max_retries e attempt r fs)
      | _ => fail started
      end
  | RequestError => fail started
  end.

Fixpoint attempts_from (u filepath : string) (max_retries : Z) (e : env)
    (remaining attempt : nat) (fs : files) : bool * files * list event :=
  match remaining with
  | O => (false, fs, [])
  | S k =>
      match attempt_once u filepath max_retries e attempt fs with
      | (ReturnTrue, fs', evs) => (true, fs', evs)
      | (NextAttempt, fs', evs) =>
          let '(b, fs'', evs') :=
            attempts_from u filepath max_retries e k (S attempt) fs' in
          (b, fs'', evs ++ evs')
      end
  end.

(** [download_pdf(url, filepath, max_retries, session)]: the session and
    the remote side are the oracle [e]; the result comes with the files
    and the events of the run. *)
Definition download_pdf (u filepath : string) (max_retries : Z) (e : env)
    (fs : files) : bool * files * list event :=
  attempts_from u filepath max_retries e (Z.to_nat max_retries) O fs.

(** The attempts a run has logged. *)
Definition is_attempt (ev : event) : bool :=
  match ev with Attempt _ => true | _ => false end.

Definition attempts_made (evs : list event) : nat :=
  List.length (List.filter is_attempt evs).

(** The attempts and the waits of a run, in order. *)
Definition is_step (ev : event) : bool :=
  match ev with Attempt _ | Sleep _ => true | _ => false end.

Definition schedule (evs : list event) : list event := List.filter is_step evs.

(** What holds after one iteration: one attempt is logged, only the
    destination is touched; on [ReturnTrue] the destination holds more
    than 1000 bytes, otherwise it holds nothing, unless a 403 sent the
    loop on without touching the files, which needs a later iteration
    to exist. *)
Definition after_attempt (filepath : string) (max_retries : Z) (attempt : nat)
    (fs : files) (o : outcome) (fs' : files) (evs : list event) : Prop :=
  attempts_made evs = 1%nat
  /\ (forall p, p <> filepath -> fs' !! p = fs !! p)
  /\ match o with
     | ReturnTrue =>
         exists b, fs' !! filepath = Some b /\ 1000 < Z.of_nat (List.length b)
     | NextAttempt =>
         fs' !! filepath = None \/ (fs' = fs /\ Z.of_nat attempt < max_retries - 1)
     end.

(** The response an attempt ends up with: the one of the verified
    request, or the one of the unverified request after an SSL error. *)
Definition received (e : env) (attempt : nat) : option response :=
  match get e attempt true with
  | Reply r => Some r
  | SSLError =>
      match get e attempt false with
      | Reply r => Some r
      | _ => None
      end
  | RequestError => None
  end.

(** Sample worlds.  [octet_stream] serves a 3000-byte PDF without
    announcing it as one; [unreachable] fails every request. *)
Definition sample_body : list Byte.byte :=
  pdf_signature ++ repeat Byte.x20 2996.

Definition octet_stream : env :=
  {| get := fun _ _ =>
              Reply {| status_code := 200;
                       content_type := Some "application/octet-stream"%string;
                       body := sample_body;
                       truncated := false; chunked := None |};
     open_ok := fun _ => true |}.

Definition unreachable : env :=
  {| get := fun _ _ => RequestError; open_ok := fun _ => true |}.

(** [forbidden_twice] answers the first two attempts with 403 and the
    third with the PDF, announced as such. *)
Definition forbidden : response :=
  {| status_code := 403; content_type := Some "text/html"%string;
     body := []; truncated := false; chunked := None |}.

Definition pdf_document : response :=
  {| status_code := 200; content_type := Some "application/pdf"%string;
     body := sample_body; truncated := false; chunked := None |}.

Definition forbidden_twice : env :=
  {| get := fun attempt _ =>
              if (attempt <? 2)%nat then Reply forbidden else Reply pdf_document;
     open_ok := fun _ => true |}.




(** The bytes of a response that reach the file when the function
    returns True: all of them when the response is announced as a PDF,
    those after the inspected first 1024 otherwise. *)
Definition retained (u : string) (r : response) : list Byte.byte :=
  if announced_as_pdf u r then body r else skipn 1024 (body r).

(** The waits of a run: how many, and how long together. *)
Definition is_sleep (ev : event) : bool :=
  match ev with Sleep _ => true | _ => false end.

Definition sleeps_made (evs : list event) : nat :=
  List.length (List.filter is_sleep evs).

Fixpoint total_sleep (evs : list event) : Z :=
  match evs with
  | [] => 0
  | Sleep d :: rest => d + total_sleep rest
  | _ :: rest => total_sleep rest
  end.

Definition is_request (ev : event) : bool :=
  match ev with Request _ _ => true | _ => false end.

Definition requests_made (evs : list event) : nat :=
  List.length (List.filter is_request evs).

(** The attempts and waits of a run in which every attempt ends in the
    exception clause: attempt [a + 1], then [2 ** a] seconds unless it
    was the last one. *)
Definition backoff_schedule (max_retries : Z) : list event :=
  flat_map
    (fun a => Attempt (Z.of_nat a + 1)
              :: (if Z.of_nat a <? max_retries - 1
                  then [Sleep (2 ^ Z.of_nat a)] else []))
    (seq 0 (Z.to_nat max_retries)).

(** What one iteration logs: at most one wait, and only when another
    iteration follows; at most two requests, the second one unverified
    and only after an SSL error. *)
Definition iteration_events (max_retries : Z) (e : env) (attempt : nat) (o : outcome)
    (evs : list event) : Prop :=
  (sleeps_made evs <= 1)%nat
  /\ (forall d, In (Sleep d) evs ->
        (d = 5 \/ d = 2 ^ Z.of_nat attempt)
        /\ Z.of_nat attempt < max_retries - 1 /\ o = NextAttempt)
  /\ (requests_made evs <= 2)%nat
  /\ (forall ua v, In (Request ua v) evs ->
        ua = user_agent attempt
        /\ (v = false -> get e attempt true = SSLError)).

End Fetcher.

(* ===================================================================== *)
(** * Catalog merger *)
(* ===================================================================== *)

Module Catalog.
Import PyStr.

(** The ['year'] of a group: an integer or the string ["older"]. *)
Inductive year_key := Year (y : Z) | Older.

Definition year_key_eqb (a b : year_key) : bool :=
  match a, b with
  | Year x, Year y => x =? y
  | Older, Older => true
  | _, _ => false
  end.

(** A record of the catalog.  The duplicate check reads the title with
    [pub.get('title', '')], so a record may lack it. *)
Record publication := {
  pub_id : string;
  pub_title : option string;
  pub_url : string;
  pub_type : string;
  pub_status : string
}.

(** A year group.  The duplicate check reads the records with
    [year_group.get('publications', [])], so a group may lack them. *)
Record year_group := {
  year : year_key;
  publications : option (list publication)
}.

Abbreviation catalog := (list year_group).

Definition generate_publication_id (year_ first_author title : string) : string :=
  let year_clean := year_ in
  let author_clean := slice_to 15 (filter_chars is_ascii_alpha first_author) in
  let title_clean := filter_chars (fun c => is_ascii_alnum c || isspace c) title in
  let title_words := firstn 5 (split title_clean) in
  let title_short := join "_" title_words in
  let pub_id := lower (year_clean +:+ "_" +:+ author_clean +:+ "_" +:+ title_short) in
  collapse_underscores pub_id.

(** The nested loop "Check for duplicates by title (case-insensitive)". *)
Definition same_title (title_lower : string) (pub : publication) : bool :=
  String.eqb (lower (default EmptyString (pub_title pub))) title_lower.

Definition has_duplicate (publications_data : catalog) (title : string) : bool :=
  let title_lower := lower title in
  existsb (fun year_group =>
             existsb (same_title title_lower)
                     (default [] (publications year_group)))
          publications_data.

(** "Determine year category" *)
Definition year_category (year_ : string) : year_key :=
  match py_int year_ with
  | Some year_int => if year_int <? 2022 then Older else Year year_int
  | None => Older
  end.

(** "Find or create year group": the index of the first group with the
    key. *)
Fixpoint find_group (publications_data : catalog) (k : year_key) : option nat :=
  match publications_data with
  | [] => None
  | group :: rest =>
      if year_key_eqb (year group) k then Some O
      else S <$> find_group rest k
  end.

Definition new_publication (year_ first_author title : string)
    (pdf_url : option string) : publication :=
  {| pub_id := generate_publication_id year_ first_author title;
     pub_title := Some title;
     pub_url := default EmptyString pdf_url;
     pub_type := "journal";
     pub_status := "published" |}.

(** [add_publication_to_json]: the list is updated in place by the
    script; here the updated list is returned next to the result. *)
Definition add_publication_to_json (publications_data : catalog)
    (year_ first_author title doi : string) (pdf_url : option string)
  : bool * catalog :=
  if has_duplicate publications_data title then (false, publications_data)
  else
    let year_category := year_category year_ in
    let publication := new_publication year_ first_author title pdf_url in
    match find_group publications_data year_category with
    | None =>
        (true,
         publications_data
           ++ [ {| year := year_category; publications := Some [publication] |} ])
    | Some i =>
        match publications_data !! i with
        | Some group =>
            match publications group with
            | Some pubs =>
                (true,
                 <[ i := {| year := year group;
                            publications := Some (pubs ++ [publication]) |} ]>
                   publications_data)
            | None => (false, publications_data)   (* KeyError, caught *)
            end
        | None => (false, publications_data)
        end
    end.

(** The sort key [float('inf') if x['year'] == 'older' else x['year']]
    and its order: [key_lt a b] is [key a < key b]. *)
Definition key_lt (a b : year_key) : bool :=
  match a, b with
  | Year x, Year y => x <? y
  | Year _, Older => true
  | Older, _ => false
  end.

(** [data.sort(key=..., reverse=True)]: a stable sort, groups with equal
    keys keep their order. *)
Fixpoint insert_desc (g : year_group) (l : catalog) : catalog :=
  match l with
  | [] => [g]
  | h :: t =>
      if key_lt (year g) (year h) then h :: insert_desc g t else g :: l
  end.

Definition sort_desc (l : catalog) : catalog := foldr insert_desc [] l.

(** What a path of the catalog holds: a JSON document, given by the
    list [json.load] reads from it, or a file [json.load] cannot read,
    such as the unfinished output of a [json.dump] that raised.  A
    [json.dump] that completes is taken to write the document of its
    argument. *)
Inductive file :=
| Json (document : catalog)
| Partial.

Abbreviation store := (gmap string file).

(** What the system does to one call of [save_publications_json]:
    the time stamp [strftime('%Y%m%d_%H%M%S')], and whether
    [os.rename], [open(filepath, 'w')] and [json.dump] succeed. *)
Record env := {
  now : string;
  rename_ok : bool;
  open_ok : bool;
  dump_ok : bool
}.

(** [load_publications_json]: the empty list for a missing file and,
    from the [except] clause, for one that cannot be read. *)
Definition load_publications_json (filepath : string) (fs : store) : catalog :=
  match fs !! filepath with
  | Some (Json document) => document
  | Some Partial => []
  | None => []
  end.

(** [save_publications_json]: result, the list after the in-place sort,
    and the files.  [open(filepath, 'w')] creates the file; a
    [json.dump] that raises leaves it unfinished. *)
Definition save_publications_json (data : catalog) (filepath : string)
    (e : env) (fs : store) : bool * catalog * store :=
  let backed_up : option store :=
    match fs !! filepath with
    | Some old =>
        if rename_ok e
        then Some (<[ (filepath +:+ ".backup." +:+ now e)%string := old ]>
                     (delete filepath fs))
        else None
    | None => Some fs
    end in
  match backed_up with
  | None => (false, data, fs)
  | Some fs1 =>
      let data' := sort_desc data in
      if open_ok e then
        if dump_ok e then (true, data', <[ filepath := Json data' ]> fs1)
        else (false, data', <[ filepath := Partial ]> fs1)
      else (false, data', fs1)
  end.

(** The records of a group, as the duplicate check sees them. *)
Definition records (g : year_group) : list publication :=
  default [] (publications g).

(** A record with title [t] is present in some year group. *)
Definition present (t : string) (publications_data : catalog) : Prop :=
  exists g p, In g publications_data /\ In p (records g) /\ pub_title p = Some t.

(** Descending order of the sort keys. *)
Definition key_ge (a b : year_group) : Prop := key_lt (year a) (year b) = false.

Definition is_older (g : year_group) : Prop := year g = Older.
Definition is_numeric (g : year_group) : Prop := exists y, year g = Year y.

(** [a] and [b] are numeric-year groups, [a] not before [b]'s year. *)
Definition year_ge (a b : year_group) : Prop :=
  exists x y, year a = Year x /\ year b = Year y /\ y <= x.

(** All records of a catalog, group by group, and what the duplicate
    check compares: the lower-cased titles. *)
Definition all_records (publications_data : catalog) : list publication :=
  flat_map records publications_data.

Definition title_key (pub : publication) : string :=
  lower (default EmptyString (pub_title pub)).

Definition titles (publications_data : catalog) : list string :=
  map title_key (all_records publications_data).

(** The keys of the groups, in order. *)
Definition keys (publications_data : catalog) : list year_key :=
  map year publications_data.

(** Every group has its ['publications'] list. *)
Definition complete (publications_data : catalog) : Prop :=
  Forall (fun g => publications g <> None) publications_data.

(** The name [save_publications_json] gives the backup. *)
Definition backup_path (filepath : string) (e : env) : string :=
  (filepath +:+ ".backup." +:+ now e)%string.

(** Two strings agree up to the case of the letters A-Z. *)
Definition ascii_lower_char (c : ascii) : ascii :=
  if is_ascii_upper c then chr (ord c + 32) else c.

Fixpoint ascii_lower (s : string) : string :=
  match s with
  | EmptyString => EmptyString
  | String c r => String (ascii_lower_char c) (ascii_lower r)
  end.

Definition same_up_to_ascii_case (s s' : string) : Prop :=
  ascii_lower s = ascii_lower s'.

(** A catalog with two groups and three records. *)
Definition sample_catalog : catalog :=
  [ {| year := Year 2023;
       publications := Some [new_publication "2023" "Doe" "A Study" None;
                             new_publication "2023" "Roe" "Another Study" None] |};
    {| year := Older;
       publications := Some [new_publication "2019" "Poe" "Early Work" None] |} ].

End Catalog.

(* ===================================================================== *)
(** * File names *)
(* ===================================================================== *)

Module Filenames.
Import PyStr.

(** The characters of the class in [re.sub(r'[<>:.../\|?*]', '', text)],
    by code point: less-than, greater-than, colon, double quote, slash,
    backslash, bar, question mark, star. *)
Definition forbidden_codes : list N := [60; 62; 58; 34; 47; 92; 124; 63; 42]%N.

Definition forbidden (c : ascii) : bool := existsb (N.eqb (ord c)) forbidden_codes.

Definition allowed (c : ascii) : bool := negb (forbidden c).

(** [re.sub(r'\s+', ' ', s)]: every maximal run of white space becomes
    one blank.  [in_run] tells whether the previous character was white
    space. *)
Fixpoint collapse_spaces_from (in_run : bool) (s : string) : string :=
  match s with
  | EmptyString => EmptyString
  | String c r =>
      if isspace c
      then (if in_run then collapse_spaces_from true r
            else String " " (collapse_spaces_from true r))
      else String c (collapse_spaces_from false r)
  end.

Definition collapse_spaces (s : string) : string := collapse_spaces_from false s.

Definition clean_filename (text : string) : string :=
  let cleaned := filter_chars allowed text in
  let cleaned := collapse_spaces cleaned in
  let cleaned := strip cleaned in
  if (200 <? String.length cleaned)%nat
  then slice_to 200 cleaned +:+ "..."
  else cleaned.

(** The name [main] gives the downloaded file: the non-empty parts,
    cleaned, joined by a dash. *)
Definition pdf_filename (year_ first_author title : string) : string :=
  let filename_parts := [year_; first_author; title] in
  let filename_clean :=
    join "-" (map clean_filename
                  (List.filter (fun part => negb (is_empty part)) filename_parts)) in
  filename_clean +:+ ".pdf".

(** A string is tidy when each white-space character in it is a single
    blank that does not follow white space; [prev] tells whether white
    space precedes the string. *)
Fixpoint tidy (prev : bool) (s : string) : bool :=
  match s with
  | EmptyString => true
  | String c r =>
      if isspace c then Ascii.eqb c " " && negb prev && tidy true r
      else tidy false r
  end.

End Filenames.

(* ===================================================================== *)
(** * Batch update of the catalog *)
(* ===================================================================== *)

Module Batch.
Import PyStr Normalizer Resolver Catalog.

(** A cell of the table pandas has read: missing (NaN), or a value,
    given by what [str()] makes of it. *)
Definition cell : Type := option string.

Definition cell_str (c : cell) : string := default "nan"%string c.

Definition isna (c : cell) : bool :=
  match c with None => true | Some _ => false end.

(** A row with the four required columns. *)
Record row := {
  Title : cell;
  First_Author : cell;
  Publication_Year : cell;
  DOI : cell
}.

(** A record's URL is empty or passes the URL-shape check. *)
Definition plausible_url (pub : publication) : Prop :=
  pub_url pub = EmptyString \/ is_likely_pdf_url (pub_url pub) = true.

Section WithUrllib.
Variable url_origin : string -> option string.
Variable urljoin : string -> string -> option string.

(** The URL kept for a row: the resolved one, dropped when it "doesn't
    look like a PDF". *)
Definition row_url (get : string -> bool -> reply) (doi : string) : option string :=
  match resolve_doi_to_pdf_url url_origin urljoin get doi with
  | Some pdf_url =>
      if negb (is_empty pdf_url) && negb (is_likely_pdf_url pdf_url)
      then None else Some pdf_url
  | None => None
  end.

(** The body of the loop over the rows: whether the row was added, and
    the catalog after it.  [get] answers the requests made for this
    row. *)
Definition update_row (get : string -> bool -> reply)
    (publications_data : catalog) (r : row) : bool * catalog :=
  let title := strip (cell_str (Title r)) in
  let first_author := strip (cell_str (First_Author r)) in
  let year_ := strip (cell_str (Publication_Year r)) in
  let doi := strip (cell_str (DOI r)) in
  if isna (Title r) || isna (DOI r) || is_empty title || is_empty doi
  then (false, publications_data)
  else add_publication_to_json publications_data year_ first_author title doi
         (row_url get doi).

(** The loop, with its two counters; [net index] is the network as the
    row of that index finds it. *)
Fixpoint update_rows (net : nat -> string -> bool -> reply) (index : nat)
    (rows : list row) (added_count skipped_count : nat)
    (publications_data : catalog) : nat * nat * catalog :=
  match rows with
  | [] => (added_count, skipped_count, publications_data)
  | r :: rest =>
      match update_row (net index) publications_data r with
      | (true, data') =>
          update_rows net (S index) rest (S added_count) skipped_count data'
      | (false, data') =>
          update_rows net (S index) rest added_count (S skipped_count) data'
      end
  end.

(** [update_publications_json_file]: the two counts it returns, and the
    files afterwards. *)
Definition update_publications_json_file (csv_data : list row)
    (publications_json_path : string) (net : nat -> string -> bool -> reply)
    (e : Catalog.env) (fs : store) : nat * nat * store :=
  let publications_data := load_publications_json publications_json_path fs in
  let '(added_count, skipped_count, publications_data) :=
    update_rows net O csv_data O O publications_data in
  if (0 <? added_count)%nat
  then
    let '(_, _, fs') :=
      save_publications_json publications_data publications_json_path e fs in
    (added_count, skipped_count, fs')
  else (added_count, skipped_count, fs).

End WithUrllib.

(** Two sample rows: a complete one and one without title. *)
Definition sample_rows : list row :=
  [ {| Title := Some "A Study"; First_Author := Some "Doe";
       Publication_Year := Some "2023"; DOI := Some "10.1000/1" |};
    {| Title := None; First_Author := Some "Roe";
       Publication_Year := Some "2021"; DOI := Some "10.1000/2" |} ]%string.

(** A network on which every request fails, and a file system that
    accepts every write. *)
Definition offline : nat -> string -> bool -> reply := fun _ _ _ => RequestError.

Definition writable : Catalog.env :=
  {| now := "20240101_120000"; rename_ok := true; open_ok := true; dump_ok := true |}.

(** A stored catalog, and rows that bring a title it has already (in
    another case), a row without title and a new title. *)
Definition stored : store :=
  {[ "publications.json"%string := Json sample_catalog ]}.

Definition more_rows : list row :=
  [ {| Title := Some "a STUDY"; First_Author := Some "Doe";
       Publication_Year := Some "2023"; DOI := Some "10.1000/1" |};
    {| Title := None; First_Author := Some "Roe";
       Publication_Year := Some "2021"; DOI := Some "10.1000/2" |};
    {| Title := Some "Late Work"; First_Author := Some "Poe";
       Publication_Year := Some "2020"; DOI := Some "10.1000/3" |} ]%string.

(** A network that answers the first row with the sample landing page
    and every later row with a page without links, and two rows to
    resolve on it. *)
Definition bare_landing : response :=
  {| status_code := 200; url := "https://example.org/article/2";
     content := {| anchors := []; metas := [] |} |}.

Definition sample_net : nat -> string -> bool -> reply :=
  fun index _ _ =>
    match index with
    | O => Reply landing
    | S _ => Reply bare_landing
    end.

Definition url_rows : list row :=
  [ {| Title := Some "A Study"; First_Author := Some "Doe";
       Publication_Year := Some "2023"; DOI := Some "10.1000/1" |};
    {| Title := Some "Another Study"; First_Author := Some "Roe";
       Publication_Year := Some "2023"; DOI := Some "10.1000/2" |} ]%string.

Definition stored_urls : store :=
  {[ "publications.json"%string :=
       Json [ {| year := Older;
                 publications :=
                   Some [new_publication "2019" "Poe" "Early Work"
                           (Some "https://example.org/files/0.pdf"%string)] |} ] ]}.

End Batch.

(* ===================================================================== *)
(** * The publisher login ([authenticate_rsna]) *)
(* ===================================================================== *)

Module Auth.
Import PyStr.

(** The parsed login page, as far as the function looks at it: the
    [<form>] elements in document order, each with its optional [id]
    and [action] attributes and the [<input>] elements below it, in
    document order, with their optional [type], [name] and [value]. *)
Record input :=
  { input_type : option string; input_name : option string;
    input_value : option string }.
Record form :=
  { form_id : option string; form_action : option string; inputs : list input }.

(** An answer of the session: the status, the parsed [content] and the
    [text]. *)
Record response := { status_code : Z; content : list form; text : string }.

Inductive reply :=
| SSLError                 (* requests.exceptions.SSLError *)
| RequestError             (* any other exception of the request *)
| Reply (r : response).

(** The [login_data] dictionary. *)
Abbreviation fields := (gmap string string).

(** The requests the function sends through the session. *)
Inductive event :=
| Get (url : string) (verify : bool)
| Post (url : string) (data : fields) (verify : bool).

Definition login_url : string := "https://pubs.rsna.org/action/showLogin".

(** [soup.find('form', {'id': 'loginForm'})] *)
Definition by_id (f : form) : bool :=
  match form_id f with Some i => String.eqb i "loginForm" | None => false end.

(** [soup.find('form', action=lambda x: x and 'login' in x.lower())] *)
Definition by_action (f : form) : bool :=
  match form_action f with
  | Some x => negb (is_empty x) && contains (lower x) "login"
  | None => false
  end.

Definition find_login_form (forms : list form) : option form :=
  match List.find by_id forms with
  | Some f => Some f
  | None => List.find by_action forms
  end.

(** [login_form.find_all('input', type='hidden')] *)
Definition is_hidden (i : input) : bool :=
  match input_type i with Some t => String.eqb t "hidden" | None => false end.

(** One turn of the loop over the hidden fields. *)
Definition add_field (login_data : fields) (input_field : input) : fields :=
  match input_name input_field with
  | Some name =>
      if is_empty name then login_data
      else <[ name := default EmptyString (input_value input_field) ]> login_data
  | None => login_data
  end.

Definition login_data (username password : string) (login_form : form) : fields :=
  fold_left add_field (List.filter is_hidden (inputs login_form))
    (<[ "password"%string := password ]> (<[ "username"%string := username ]> ∅)).

Definition login_action (login_form : form) : string :=
  let a := default "/action/doLogin"%string (form_action login_form) in
  if startswith a "http" then a else ("https://pubs.rsna.org" +:+ a)%string.

(** The reading of the answer to the login post. *)
Definition verdict (login_response : response) : bool :=
  if status_code login_response =? 200 then
    let t := lower (text login_response) in
    if contains t "logout" || contains t "sign out" then true
    else if contains t "invalid" || contains t "error" then false
    else true
  else true.

Section WithSession.
Variable get : string -> bool -> reply.
Variable post : string -> fields -> bool -> reply.

(** [session.get(login_url, ...)], once more without verification
    after an SSL error. *)
Definition get_login_page : option response * list event :=
  match get login_url true with
  | Reply r => (Some r, [Get login_url true])
  | RequestError => (None, [Get login_url true])
  | SSLError =>
      match get login_url false with
      | Reply r => (Some r, [Get login_url true; Get login_url false])
      | _ => (None, [Get login_url true; Get login_url false])
      end
  end.

(** [authenticate_rsna(session, username, password)]: the result and
    the requests sent, in order. *)
Definition authenticate_rsna (username password : string) : bool * list event :=
  let '(page, sent) := get_login_page in
  match page with
  | None => (false, sent)
  | Some response =>
      if negb (status_code response =? 200) then (false, sent)
      else
        match find_login_form (content response) with
        | None => (false, sent)
        | Some login_form =>
            let data := login_data username password login_form in
            let action := login_action login_form in
            match post action data true with
            | Reply login_response =>
                (verdict login_response, sent ++ [Post action data true])
            | RequestError => (false, sent ++ [Post action data true])
            | SSLError =>
                match post action data false with
                | Reply login_response =>
                    (verdict login_response,
                     sent ++ [Post action data true; Post action data false])
                | _ => (false, sent ++ [Post action data true; Post action data false])
                end
            end
        end
  end.

End WithSession.

(** The hidden field of a form that decides what is sent under a name:
    the last one that carries this name. *)
Definition named (n : string) (i : input) : bool :=
  is_hidden i &&
  match input_name i with
  | Some x => negb (is_empty x) && String.eqb x n
  | None => false
  end.

Definition hidden_value (n : string) (f : form) : option string :=
  option_map (fun i => default EmptyString (input_value i))
             (List.find (named n) (rev (inputs f))).

Definition credentials (username password n : string) : option string :=
  if String.eqb n "username" then Some username
  else if String.eqb n "password" then Some password
  else None.

(** A login page whose form carries a token and a field named like the
    password, and a session that answers every request. *)
Definition sample_form : form :=
  {| form_id := Some "loginForm"%string; form_action := Some "/action/doLogin"%string;
     inputs := [ {| input_type := Some "hidden"%string; input_name := Some "csrf"%string;
                    input_value := Some "t0k3n"%string |};
                 {| input_type := Some "text"%string; input_name := Some "username"%string;
                    input_value := None |};
                 {| input_type := Some "hidden"%string; input_name := Some "password"%string;
                    input_value := None |} ] |}.

Definition sample_get : string -> bool -> reply :=
  fun _ _ => Reply {| status_code := 200; content := [sample_form]; text := EmptyString |}.

Definition sample_post : string -> fields -> bool -> reply :=
  fun _ _ _ => Reply {| status_code := 503; content := []; text := "error"%string |}.

End Auth.

(* ===================================================================== *)
(** * Properties of the identifier normaliser *)
(* ===================================================================== *)

Section NormalizerFacts.
Import PyStr Normalizer.

Lemma startswith_head s c p :
  startswith s (String c p) = true -> exists r, s = String c r /\ startswith r p = true.
Proof.
  destruct s as [|a r]; simpl; [discriminate|].
  destruct (Ascii.eqb a c) eqn:E; [|discriminate].
  apply Ascii.eqb_eq in E. subst a. eauto.
Qed.

Lemma canonical_unprefixed s : startswith s "10." = true -> unprefixed s.
Proof.
  intros H. apply startswith_head in H as (r & -> & _). reflexivity.
Qed.

(** [replace] leaves a string alone in which [old] does not occur. *)
Lemma replace_scan_absent old new s :
  contains s old = false -> replace_scan old new O s = s.
Proof.
  induction s as [|c r IH]; [reflexivity|].
  cbn [contains replace_scan]. intros H.
  apply orb_false_elim in H as [H1 H2].
  rewrite H1. f_equal. exact (IH H2).
Qed.

(** Trailing characters are stripped behind a block that has none of
    them. *)
Lemma rstrip_by_app f p s :
  all_chars (fun c => negb (f c)) p = true ->
  rstrip_by f (p +:+ s) = p +:+ rstrip_by f s.
Proof.
  induction p as [|c p IH]; [reflexivity|].
  cbn [all_chars]. intros H. apply andb_prop in H as [Hc Hp].
  change (rstrip_by f (String c (p +:+ s)) = String c (p +:+ rstrip_by f s)).
  cbn [rstrip_by]. rewrite (IH Hp).
  destruct (p +:+ rstrip_by f s); [|reflexivity].
  destruct (f c); [discriminate Hc | reflexivity].
Qed.

Lemma startswith_app p s : startswith (p +:+ s) p = true.
Proof.
  induction p as [|c p IH]; [reflexivity|].
  change (String c p +:+ s) with (String c (p +:+ s)).
  cbn [startswith]. now rewrite Ascii.eqb_refl.
Qed.

(** The scan drops the rest of a matched occurrence. *)
Lemma replace_scan_skip old new q s :
  replace_scan old new (String.length q) (q +:+ s) = replace_scan old new O s.
Proof.
  induction q as [|c q IH]; [reflexivity|].
  change (String c q +:+ s) with (String c (q +:+ s)).
  cbn [String.length replace_scan]. exact IH.
Qed.

Lemma replace_leading c q s :
  contains s (String c q) = false ->
  replace (String c q +:+ s) (String c q) EmptyString = s.
Proof.
  intros H. unfold replace.
  pose proof (startswith_app (String c q) s) as Hp.
  change (String c q +:+ s) with (String c (q +:+ s)) in *.
  cbn [replace_scan]. rewrite Hp. cbn [String.length Nat.pred].
  rewrite replace_scan_skip. change (EmptyString +:+ ?x) with x.
  now apply replace_scan_absent.
Qed.

(** Where the normaliser does what the claim C7 says: a recognised
    prefix in front of a body that has no trailing white space and in
    which the prefix does not occur again is stripped, and the body is
    returned as it is. *)
Lemma clean_doi_strips_leading_prefix p s :
  In p recognized_prefixes ->
  rstrip_by isspace s = s -> contains s p = false ->
  clean_doi (p +:+ s) = s.
Proof.
  intros Hp Hs Hc. unfold clean_doi, strip, strip_by.
  cbn [recognized_prefixes In] in Hp.
  destruct Hp as [<- | [<- | [<- | [<- | []]]]];
    (rewrite rstrip_by_app by reflexivity); rewrite Hs;
    match goal with
    | |- context [lstrip_by isspace (?p +:+ s)] =>
        change (lstrip_by isspace (p +:+ s)) with (p +:+ s)
    end;
    repeat match goal with
    | |- context [startswith (?p +:+ s) ?q] =>
        first [ change (startswith (p +:+ s) q) with false
              | change (startswith (p +:+ s) q) with true ]
    end;
    cbv iota; now apply replace_leading.
Qed.

Lemma strip_trimmed s : trimmed s -> strip s = s.
Proof. intros [Hl Hr]. unfold strip, strip_by. now rewrite Hr. Qed.

(** A trimmed input without a recognised prefix is a fixed point. *)
Lemma clean_doi_fixed s : trimmed s -> unprefixed s -> clean_doi s = s.
Proof.
  intros Ht. apply strip_trimmed in Ht. revert Ht.
  unfold unprefixed, recognized_prefixes, clean_doi. intros -> H.
  cbn [existsb] in H. repeat (apply orb_false_elim in H as [? H]).
  repeat match goal with E : startswith s _ = false |- _ => rewrite E; clear E end.
  reflexivity.
Qed.

Example clean_doi_scenario :
  clean_doi "https://doi.org/10.1038/nature12373" = "10.1038/nature12373"%string.
Proof. reflexivity. Qed.

(** C7 (the code departs from the claim).  For the input
    "doi:10.1000/doi:abc" the prefix "doi:" is recognised and
    [str.replace] then deletes both occurrences of it: the result is
    "10.1000/abc", not the body "10.1000/doi:abc" that follows the
    prefix, although that body does not start with a recognised
    prefix. *)
Theorem clean_doi_removes_inner_occurrence :
  unprefixed "10.1000/doi:abc"
  /\ clean_doi ("doi:" +:+ "10.1000/doi:abc") = "10.1000/abc"%string
  /\ clean_doi ("doi:" +:+ "10.1000/doi:abc") <> "10.1000/doi:abc"%string.
Proof. repeat split. discriminate. Qed.

(** C8, counterexample.  Normalising "https://doi.org/doi:10.1/x" gives
    "doi:10.1/x", and normalising that gives "10.1/x": two passes differ
    from one. *)
Lemma clean_doi_not_idempotent :
  clean_doi "https://doi.org/doi:10.1/x" = "doi:10.1/x"%string
  /\ clean_doi (clean_doi "https://doi.org/doi:10.1/x") = "10.1/x"%string
  /\ clean_doi (clean_doi "https://doi.org/doi:10.1/x")
     <> clean_doi "https://doi.org/doi:10.1/x".
Proof. repeat split. discriminate. Qed.

(** C8, amended.  Normalisation is idempotent on every input whose
    normal form is trimmed and does not start with a recognised prefix.
    An already-canonical identifier (trimmed, starting with "10.") is
    returned unchanged, and so is the result of normalising it behind a
    recognised prefix that does not occur in it again. *)
Theorem clean_doi_idempotent_on_normal_forms (s : string) :
  (trimmed (clean_doi s) -> unprefixed (clean_doi s) ->
   clean_doi (clean_doi s) = clean_doi s)
  /\ (canonical s -> clean_doi s = s)
  /\ (canonical s ->
      forall p, In p recognized_prefixes -> contains s p = false ->
                clean_doi (p +:+ s) = s
                /\ clean_doi (clean_doi (p +:+ s)) = clean_doi (p +:+ s)).
Proof.
  assert (Hcan : canonical s -> clean_doi s = s).
  { intros [Ht Hc]. apply clean_doi_fixed; [exact Ht | exact (canonical_unprefixed s Hc)]. }
  split; [apply clean_doi_fixed|]. split; [exact Hcan|].
  intros Hs p Hp Hc.
  assert (E : clean_doi (p +:+ s) = s).
  { apply clean_doi_strips_leading_prefix; [exact Hp | apply Hs | exact Hc]. }
  split; [exact E|]. rewrite E. exact (Hcan Hs).
Qed.

Lemma clean_doi_idempotent_on_normal_forms_witness :
  clean_doi (clean_doi "https://doi.org/10.1038/nature12373")
    = clean_doi "https://doi.org/10.1038/nature12373"
  /\ clean_doi "10.1038/nature12373" = "10.1038/nature12373"%string.
Proof.
  split.
  - apply (proj1 (clean_doi_idempotent_on_normal_forms
                    "https://doi.org/10.1038/nature12373"));
      [split; vm_compute; reflexivity | vm_compute; reflexivity].
  - apply (proj1 (proj2 (clean_doi_idempotent_on_normal_forms "10.1038/nature12373"))).
    split; [split; vm_compute; reflexivity | vm_compute; reflexivity].
Defined.

End NormalizerFacts.

(* ===================================================================== *)
(** * Properties of the catalog merger *)
(* ===================================================================== *)

Section CatalogFacts.
Import PyStr Catalog.

Lemma year_key_eqb_eq a b : year_key_eqb a b = true -> a = b.
Proof.
  destruct a, b; simpl; try discriminate; auto.
  intros H. apply Z.eqb_eq in H. congruence.
Qed.

Lemma find_group_Some data k i :
  find_group data k = Some i ->
  exists g, data !! i = Some g /\ year g = k.
Proof.
  revert i. induction data as [|h t IH]; simpl; intros i H; [discriminate|].
  destruct (year_key_eqb (year h) k) eqn:E.
  - inversion H; subst. exists h. split; [reflexivity|]. now apply year_key_eqb_eq.
  - destruct (find_group t k) as [j|]; simpl in H; [|discriminate].
    inversion H; subst. destruct (IH j eq_refl) as (g & Hg & Hy). eauto.
Qed.

Lemma present_has_duplicate data t1 t2 :
  present t1 data -> lower t1 = lower t2 -> has_duplicate data t2 = true.
Proof.
  intros (g & p & Hg & Hp & Ht) Hl. unfold has_duplicate.
  apply existsb_exists. exists g. split; [exact Hg|].
  apply existsb_exists. exists p. split; [exact Hp|].
  unfold same_title. rewrite Ht. simpl. rewrite Hl. apply String.eqb_refl.
Qed.

(** A rejected merge returns the list it was given. *)
Lemma rejected_unchanged data y fa t doi u :
  (add_publication_to_json data y fa t doi u).1 = false ->
  (add_publication_to_json data y fa t doi u).2 = data.
Proof.
  unfold add_publication_to_json.
  destruct (has_duplicate data t); [reflexivity|].
  destruct (find_group data (year_category y)) as [i|]; [|discriminate].
  destruct (data !! i) as [g|]; [|reflexivity].
  destruct (publications g); [discriminate|reflexivity].
Qed.

(** C4.  If a record titled [t1] is present in any year group and
    [t1.lower() == t2.lower()], merging a record titled [t2] returns
    inserted = false, whatever the year and the other fields are. *)
Theorem duplicate_title_not_inserted data t1 t2 y fa doi u :
  present t1 data -> lower t1 = lower t2 ->
  (add_publication_to_json data y fa t2 doi u).1 = false.
Proof.
  intros Hp Hl. unfold add_publication_to_json.
  now rewrite (present_has_duplicate data t1 t2 Hp Hl).
Qed.

Lemma duplicate_title_not_inserted_witness :
  let data := (add_publication_to_json [] "2021" "Doe" "A Study" "10.1/a" None).2 in
  (add_publication_to_json data "2023" "Doe" "a STUDY" "10.1/a" None).1 = false.
Proof.
  apply (duplicate_title_not_inserted _ "A Study" "a STUDY").
  - eexists _, _. split; [left; reflexivity|].
    split; [left; reflexivity|reflexivity].
  - reflexivity.
Defined.

(** C10.  When the merge is refused because the title duplicates a
    record already present, the result is false and the catalog handed
    back is the one that was passed in: no group added or removed, no
    record appended.  The same holds for every call that returns
    false. *)
Theorem duplicate_leaves_catalog_unchanged data t1 t2 y fa doi u :
  (present t1 data -> lower t1 = lower t2 ->
   add_publication_to_json data y fa t2 doi u = (false, data))
  /\ ((add_publication_to_json data y fa t2 doi u).1 = false ->
      (add_publication_to_json data y fa t2 doi u).2 = data).
Proof.
  split.
  - intros Hp Hl. unfold add_publication_to_json.
    now rewrite (present_has_duplicate data t1 t2 Hp Hl).
  - apply rejected_unchanged.
Qed.

Lemma duplicate_leaves_catalog_unchanged_witness :
  let data := (add_publication_to_json [] "2021" "Doe" "A Study" "10.1/a" None).2 in
  add_publication_to_json data "2023" "Doe" "a STUDY" "10.1/a" None = (false, data).
Proof.
  apply (proj1 (duplicate_leaves_catalog_unchanged _ "A Study" "a STUDY" _ _ _ _)).
  - eexists _, _. split; [left; reflexivity|].
    split; [left; reflexivity|reflexivity].
  - reflexivity.
Defined.

Lemma year_category_recent y n :
  py_int y = Some n -> 2022 <= n -> year_category y = Year n.
Proof.
  intros H Hn. unfold year_category. rewrite H.
  destruct (n <? 2022) eqn:E; [apply Z.ltb_lt in E; lia | reflexivity].
Qed.

Lemma year_category_older y :
  (forall n, py_int y = Some n -> n < 2022) -> year_category y = Older.
Proof.
  intros H. unfold year_category. destruct (py_int y) as [n|]; [|reflexivity].
  specialize (H n eq_refl). apply Z.ltb_lt in H. now rewrite H.
Qed.

(** The group that receives an inserted record. *)
Lemma inserted_into_category data y fa t doi u data' :
  add_publication_to_json data y fa t doi u = (true, data') ->
  exists i g pubs,
    data' !! i = Some g /\ year g = year_category y
    /\ publications g = Some (pubs ++ [new_publication y fa t u]).
Proof.
  unfold add_publication_to_json.
  destruct (has_duplicate data t); [discriminate|].
  destruct (find_group data (year_category y)) as [i|] eqn:F.
  - destruct (find_group_Some _ _ _ F) as (g & Hg & Hy). rewrite Hg.
    destruct (publications g) as [pubs|]; [|discriminate].
    intros H. inversion H; subst data'; clear H.
    eexists i, _, pubs. split; [|split].
    + apply list_lookup_insert_eq. eapply lookup_lt_Some, Hg.
    + exact Hy.
    + reflexivity.
  - intros H. inversion H; subst data'; clear H.
    eexists (List.length data), _, []. split; [|split].
    + now apply list_lookup_middle.
    + reflexivity.
    + reflexivity.
Qed.

(** C5.  When a record is inserted for the year value [y], the group
    that receives it has key [n] if [y] parses as the integer [n] and
    [n >= 2022], and has key "older" in every other case ([y] parses to
    an integer below 2022, or does not parse). *)
Theorem group_key_of_year data y fa t doi u data' :
  add_publication_to_json data y fa t doi u = (true, data') ->
  exists i g pubs,
    data' !! i = Some g
    /\ publications g = Some (pubs ++ [new_publication y fa t u])
    /\ (forall n, py_int y = Some n -> 2022 <= n -> year g = Year n)
    /\ ((forall n, py_int y = Some n -> n < 2022) -> year g = Older).
Proof.
  intros H. destruct (inserted_into_category _ _ _ _ _ _ _ H) as (i & g & pubs & Hi & Hy & Hp).
  exists i, g, pubs. repeat split; auto.
  - intros n Hn Hge. rewrite Hy. now apply year_category_recent.
  - intros Hn. rewrite Hy. now apply year_category_older.
Qed.

Lemma group_key_of_year_witness :
  exists i g pubs,
    [ {| year := Year 2023;
         publications := Some [new_publication "2023" "Doe" "A Study" None] |} ]
      !! i = Some g
    /\ publications g = Some (pubs ++ [new_publication "2023" "Doe" "A Study" None])
    /\ (forall n, py_int "2023" = Some n -> 2022 <= n -> year g = Year n)
    /\ ((forall n, py_int "2023" = Some n -> n < 2022) -> year g = Older).
Proof.
  apply (group_key_of_year [] "2023" "Doe" "A Study" "10.1/a" None). reflexivity.
Defined.

Example year_category_examples :
  year_category "2023" = Year 2023 /\ year_category "2022" = Year 2022
  /\ year_category "2021" = Older /\ year_category "2023.0" = Older
  /\ year_category "n/a" = Older /\ year_category " 2024 " = Year 2024.
Proof. repeat split. Qed.

(** A year of 4301 digits is beyond what [int()] converts: the record
    goes to the "older" group. *)
Example year_category_beyond_limit :
  let y := string_of_list_ascii (repeat "9"%char 4301) in
  py_int y = None /\ year_category y = Older.
Proof. vm_compute. split; reflexivity. Qed.

(** ** The order of the saved groups *)

Lemma insert_desc_perm g l : Permutation (g :: l) (insert_desc g l).
Proof.
  induction l as [|h t IH]; simpl; [reflexivity|].
  destruct (key_lt (year g) (year h)); [|reflexivity].
  rewrite perm_swap. now constructor.
Qed.

Lemma sort_desc_perm l : Permutation l (sort_desc l).
Proof.
  induction l as [|h t IH]; simpl; [reflexivity|].
  rewrite <- insert_desc_perm. now constructor.
Qed.

Lemma key_lt_asym a b : key_lt a b = true -> key_lt b a = false.
Proof.
  destruct a, b; simpl; try reflexivity; try discriminate.
  intros H. apply Z.ltb_lt in H. apply Z.ltb_ge. lia.
Qed.

Lemma key_ge_trans a b c : key_ge a b -> key_ge b c -> key_ge a c.
Proof.
  unfold key_ge. destruct (year a), (year b), (year c); simpl;
    try reflexivity; try discriminate.
  rewrite !Z.ltb_ge. lia.
Qed.

Lemma insert_desc_sorted g l :
  StronglySorted key_ge l -> StronglySorted key_ge (insert_desc g l).
Proof.
  induction 1 as [|h t Ht IH Hh]; simpl.
  - repeat constructor.
  - destruct (key_lt (year g) (year h)) eqn:E.
    + constructor; [exact IH|].
      eapply Permutation_Forall; [apply insert_desc_perm|].
      constructor; [|exact Hh]. now apply key_lt_asym.
    + constructor; [now constructor|].
      constructor; [exact E|].
      eapply Forall_impl; [exact Hh|].
      intros x Hx. now apply (key_ge_trans g h x).
Qed.

Lemma sort_desc_sorted l : StronglySorted key_ge (sort_desc l).
Proof.
  induction l as [|h t IH]; simpl; [constructor|].
  now apply insert_desc_sorted.
Qed.

(** The sort is stable: the groups of any one key keep their order. *)
Lemma insert_desc_stable k g l :
  List.filter (fun x => year_key_eqb (year x) k) (insert_desc g l)
  = List.filter (fun x => year_key_eqb (year x) k) (g :: l).
Proof.
  induction l as [|h t IH]; [reflexivity|].
  cbn [insert_desc]. destruct (key_lt (year g) (year h)) eqn:E; [|reflexivity].
  cbn [List.filter] in *. rewrite IH.
  destruct (year_key_eqb (year h) k) eqn:Eh, (year_key_eqb (year g) k) eqn:Eg;
    try reflexivity.
  apply year_key_eqb_eq in Eh, Eg. rewrite Eh, Eg in E.
  destruct k; simpl in E; [apply Z.ltb_lt in E; lia | discriminate].
Qed.

Lemma sort_desc_stable k l :
  List.filter (fun x => year_key_eqb (year x) k) (sort_desc l)
  = List.filter (fun x => year_key_eqb (year x) k) l.
Proof.
  induction l as [|h t IH]; [reflexivity|].
  cbn [sort_desc foldr]. fold (sort_desc t). rewrite insert_desc_stable.
  cbn [List.filter]. now rewrite IH.
Qed.

(** A list in descending key order is a block of "older" groups followed
    by the numeric years in decreasing order. *)
Lemma descending_older_first l :
  StronglySorted key_ge l ->
  exists olds nums,
    l = olds ++ nums /\ Forall is_older olds
    /\ Forall is_numeric nums /\ StronglySorted year_ge nums.
Proof.
  induction 1 as [|h t Ht IH Hh].
  - exists [], []. repeat split; constructor.
  - destruct IH as (olds & nums & -> & Ho & Hn & Hs).
    destruct (year h) as [x|] eqn:Eh.
    + assert (Hall : Forall (fun g => exists y, year g = Year y /\ y <= x) (olds ++ nums)).
      { eapply Forall_impl; [exact Hh|]. intros g Hg. unfold key_ge in Hg.
        rewrite Eh in Hg. destruct (year g) as [y|]; simpl in Hg; [|discriminate].
        exists y. split; [reflexivity|]. now apply Z.ltb_ge. }
      destruct olds as [|o olds'].
      * exists [], (h :: nums). simpl in *. repeat split.
        -- constructor.
        -- constructor; [now exists x | exact Hn].
        -- constructor; [exact Hs|].
           eapply Forall_impl; [exact Hall|].
           intros g (y & Hy & Hle). now exists x, y.
      * exfalso. inversion Ho as [|? ? Hold _]; subst.
        inversion Hall as [|? ? (y & Hy & _) _]; subst.
        unfold is_older in Hold. congruence.
    + exists (h :: olds), nums. repeat split; auto.
Qed.

(** C6.  After a successful [save_publications_json] the file holds the
    groups of the catalog (the same groups, reordered) in descending key
    order with "older" above every numeric year: first the "older"
    groups, then the numeric-year groups in decreasing order. *)
Theorem saved_groups_older_first_then_descending data filepath e fs data' fs' :
  save_publications_json data filepath e fs = (true, data', fs') ->
  fs' !! filepath = Some (Json data')
  /\ Permutation data data'
  /\ StronglySorted key_ge data'
  /\ exists olds nums,
       data' = olds ++ nums /\ Forall is_older olds
       /\ Forall is_numeric nums /\ StronglySorted year_ge nums.
Proof.
  unfold save_publications_json. intros H.
  assert (Hd : data' = sort_desc data /\ fs' !! filepath = Some (Json data')).
  { destruct (fs !! filepath); [destruct (rename_ok e)|];
      try discriminate; destruct (open_ok e); try discriminate;
      destruct (dump_ok e); try discriminate;
      inversion H; subst; split; try reflexivity; apply lookup_insert_eq. }
  destruct Hd as [-> Hf]. split; [exact Hf|].
  split; [apply sort_desc_perm|].
  split; [apply sort_desc_sorted|].
  apply descending_older_first, sort_desc_sorted.
Qed.

Lemma saved_groups_older_first_then_descending_witness :
  let data := [ {| year := Year 2022; publications := Some [] |};
                {| year := Older; publications := Some [] |};
                {| year := Year 2024; publications := Some [] |} ] in
  let sorted := [ {| year := Older; publications := Some [] |};
                  {| year := Year 2024; publications := Some [] |};
                  {| year := Year 2022; publications := Some [] |} ] in
  ({[ "publications.json"%string := Json sorted ]} : store) !! "publications.json"%string
    = Some (Json sorted)
  /\ Permutation data sorted
  /\ StronglySorted key_ge sorted
  /\ exists olds nums,
       sorted = olds ++ nums /\ Forall is_older olds
       /\ Forall is_numeric nums /\ StronglySorted year_ge nums.
Proof.
  intros data sorted.
  apply (saved_groups_older_first_then_descending data "publications.json"
           {| now := "20240101_000000"; rename_ok := true; open_ok := true;
              dump_ok := true |} ∅).
  reflexivity.
Defined.

End CatalogFacts.

(* ===================================================================== *)
(** * Properties of the location resolver *)
(* ===================================================================== *)

Section ResolverFacts.
Import PyStr Normalizer Resolver.

Variable url_origin : string -> option string.
Variable urljoin : string -> string -> option string.

Local Abbreviation absolute := (absolute url_origin urljoin).
Local Abbreviation first_likely := (first_likely url_origin urljoin).
Local Abbreviation passed_over := (passed_over url_origin urljoin).
Local Abbreviation resolve_response := (resolve_response url_origin urljoin).

(** The loop passes over candidates until one passes the check or one
    cannot be made absolute. *)
Lemma first_likely_passes_over base pre c post :
  Forall (passed_over base) pre ->
  first_likely base (pre ++ c :: post)
  = match absolute base c.1 with
    | Some u => if is_likely_pdf_url u then Found u else first_likely base post
    | None => Raised
    end.
Proof.
  induction 1 as [|[x lbl] pre (v & Hv & Hl) _ IH].
  - destruct c as [c lbl]. reflexivity.
  - cbn [app first_likely fst] in *. now rewrite Hv, Hl.
Qed.

Lemma first_likely_all_passed_over base cs :
  Forall (passed_over base) cs -> first_likely base cs = Exhausted.
Proof.
  induction 1 as [|[x lbl] cs (v & Hv & Hl) _ IH]; [reflexivity|].
  cbn [first_likely fst] in *. now rewrite Hv, Hl.
Qed.

End ResolverFacts.

Section MetaTagFacts.
Import PyStr Resolver.

(** The meta-tag search never answers with the empty string. *)
Lemma first_pdf_content_nonempty ms : first_pdf_content ms <> Some EmptyString.
Proof.
  induction ms as [|x ms IH]; cbn [first_pdf_content]; [discriminate|].
  destruct (default EmptyString (meta_content x)) eqn:Ec;
    cbn [is_empty negb andb]; [exact IH|].
  destruct (contains _ _); [discriminate | exact IH].
Qed.

Lemma find_pdf_in_meta_tags_nonempty page :
  find_pdf_in_meta_tags page <> Some EmptyString.
Proof.
  unfold find_pdf_in_meta_tags.
  destruct (List.find _ _) as [tag|]; [|apply first_pdf_content_nonempty].
  destruct (meta_content tag) as [[|a c]|]; cbn [truthy is_empty negb];
    try apply first_pdf_content_nonempty. discriminate.
Qed.

Lemma meta_candidates_Some page m :
  find_pdf_in_meta_tags page = Some m ->
  meta_candidates page = [(m, "meta tag"%string)].
Proof.
  intros H. unfold meta_candidates. rewrite H.
  destruct m; [|reflexivity].
  now destruct (find_pdf_in_meta_tags_nonempty page).
Qed.

End MetaTagFacts.

Section ResolverClaims.
Import PyStr Normalizer Resolver.

(** C1, counterexample.  The landing page above yields the meta-tag
    candidate "https://example.org/files/1.pdf", which passes the
    URL-shape check, yet the resolver returns the anchor's target
    "https://example.org/download/1": anchors are pooled first. *)
Lemma meta_candidate_not_preferred :
  endswith (lower (url landing)) ".pdf" = false
  /\ meta_candidates landing_page
     = [("https://example.org/files/1.pdf", "meta tag")]%string
  /\ is_likely_pdf_url "https://example.org/files/1.pdf" = true
  /\ anchor_candidates landing_page
     = [("https://example.org/download/1",
         "href: https://example.org/download/1")]%string
  /\ (forall url_origin urljoin,
        resolve_doi_to_pdf_url url_origin urljoin
          (fun _ _ => Reply landing) "10.1000/1"
        = Some "https://example.org/download/1"%string).
Proof. repeat split. Qed.

(** C1, amended.  When the final URL does not end in ".pdf", the
    candidates are tried in the order anchor heuristic, publisher
    pattern, meta tag, and the first one that passes the URL-shape
    check, once made absolute, is returned: an anchor or
    publisher-pattern candidate when all candidates before it were
    passed over; the meta-tag candidate when every anchor and
    publisher-pattern candidate was passed over and it passes itself.
    Within the meta-tag strategy the first citation_pdf_url tag, when it
    has content, is the candidate.  When making a candidate absolute
    raises before any candidate has passed, the resolver returns
    nothing. *)
Theorem meta_candidate_tried_last url_origin urljoin (r : response) :
  endswith (lower (url r)) ".pdf" = false ->
  let earlier :=
    anchor_candidates (content r)
    ++ get_publisher_pdf_patterns (url r) (content r) in
  (forall pre c post u,
      earlier = pre ++ c :: post ->
      Forall (passed_over url_origin urljoin (url r)) pre ->
      absolute url_origin urljoin (url r) c.1 = Some u ->
      is_likely_pdf_url u = true ->
      resolve_response url_origin urljoin r = Some u)
  /\ (Forall (passed_over url_origin urljoin (url r)) earlier ->
      forall m u,
        find_pdf_in_meta_tags (content r) = Some m ->
        absolute url_origin urljoin (url r) m = Some u ->
        is_likely_pdf_url u = true ->
        resolve_response url_origin urljoin r = Some u)
  /\ (forall tag c,
        List.find (has_name "citation_pdf_url") (metas (content r)) = Some tag ->
        meta_content tag = Some c -> c <> EmptyString ->
        find_pdf_in_meta_tags (content r) = Some c)
  /\ (forall pre c post,
        pdf_candidates (url r) (content r) = pre ++ c :: post ->
        Forall (passed_over url_origin urljoin (url r)) pre ->
        absolute url_origin urljoin (url r) c.1 = None ->
        resolve_response url_origin urljoin r = None).
Proof.
  intros H earlier. unfold resolve_response. rewrite H.
  unfold pdf_candidates. rewrite app_assoc. fold earlier.
  split; [|split; [|split]].
  - intros pre c post u -> Hpre Hc Hl. rewrite <- app_assoc. cbn [app].
    rewrite (first_likely_passes_over _ _ _ _ _ _ Hpre). now rewrite Hc, Hl.
  - intros Hall m u Hm Hc Hl. rewrite (meta_candidates_Some _ _ Hm).
    rewrite (first_likely_passes_over _ _ _ _ _ _ Hall). cbn [fst].
    now rewrite Hc, Hl.
  - intros tag c Htag Hc Hne. unfold find_pdf_in_meta_tags.
    rewrite Htag, Hc. destruct c; [contradiction | reflexivity].
  - intros pre c post -> Hpre Hc.
    rewrite (first_likely_passes_over _ _ _ _ _ _ Hpre). now rewrite Hc.
Qed.

Lemma meta_candidate_tried_last_witness :
  endswith (lower (url landing)) ".pdf" = false
  /\ (forall url_origin urljoin,
        resolve_response url_origin urljoin landing
        = Some "https://example.org/download/1"%string)
  /\ (forall url_origin urljoin,
        urljoin "https://example.org/article/1"%string "ftp://[bad/pdf"%string = None ->
        resolve_response url_origin urljoin broken_landing = None).
Proof.
  split; [reflexivity|]. split.
  - intros url_origin urljoin.
    apply (proj1 (meta_candidate_tried_last url_origin urljoin landing eq_refl)
             [] ("https://example.org/download/1",
                 "href: https://example.org/download/1")%string []);
      [reflexivity | constructor | reflexivity | reflexivity].
  - intros url_origin urljoin Hjoin.
    refine (proj2 (proj2 (proj2
              (meta_candidate_tried_last url_origin urljoin broken_landing eq_refl)))
              [] ("ftp://[bad/pdf", "href: ftp://[bad/pdf")%string _ eq_refl _ _);
      [constructor | exact Hjoin].
Defined.

End ResolverClaims.

(* ===================================================================== *)
(** * Properties of the fetcher *)
(* ===================================================================== *)

Section FetcherFacts.
Import PyStr Fetcher.

Variables (u filepath : string) (max_retries : Z) (e : env).

Lemma attempts_made_app evs1 evs2 :
  attempts_made (evs1 ++ evs2) = (attempts_made evs1 + attempts_made evs2)%nat.
Proof. unfold attempts_made. now rewrite List.filter_app, List.length_app. Qed.

Lemma schedule_app evs1 evs2 : schedule (evs1 ++ evs2) = schedule evs1 ++ schedule evs2.
Proof. apply List.filter_app. Qed.

(** The exception clause leaves no file at the destination. *)
Lemma on_exception_spec attempt fs fs' evs :
  on_exception filepath max_retries attempt fs = (fs', evs) ->
  fs' = delete filepath fs /\ attempts_made evs = O.
Proof.
  unfold on_exception. intros H. inversion H; subst. split; [reflexivity|].
  now destruct (_ <? _).
Qed.

(** The inspection logs at most the warning. *)
Lemma inspect_events r s evs :
  inspect u r = Some (s, evs) -> evs = [] \/ evs = [WarnNotPdf].
Proof.
  unfold inspect. destruct (announced_as_pdf u r); [intros [= <- <-]; now left|].
  destruct (truncated r && _); [discriminate|].
  destruct (firstn _ _) as [|b0 rest]; [intros [= <- <-]; now right|].
  destruct (bytes_startswith _ _), (chunked r); intros [= <- <-]; auto.
Qed.

(** What [store] leaves behind. *)
Lemma store_spec attempt r fs o fs' evs :
  store u filepath max_retries e attempt r fs = (o, fs', evs) ->
  attempts_made evs = O
  /\ (forall p, p <> filepath -> fs' !! p = fs !! p)
  /\ match o with
     | ReturnTrue =>
         exists b, fs' !! filepath = Some b /\ 1000 < Z.of_nat (List.length b)
     | NextAttempt => fs' !! filepath = None
     end.
Proof.
  unfold store, on_exception.
  destruct (inspect u r) as [[s evs0]|] eqn:Hi.
  - assert (Hpeek : attempts_made evs0 = O)
      by (destruct (inspect_events _ _ _ Hi) as [-> | ->]; reflexivity).
    destruct (open_ok e attempt);
      [destruct s as [|rest fails];
       [|destruct fails;
         [|destruct (1000 <? Z.of_nat (List.length rest)) eqn:Hsize]]|];
      intros [= <- <- <-]; rewrite ?attempts_made_app, ?Hpeek;
      (split; [now destruct (_ <? _) | split]);
      try (intros p Hp; now rewrite ?lookup_delete_ne, ?lookup_insert_ne by congruence);
      rewrite ?lookup_delete_eq; try reflexivity.
    exists rest. split; [apply lookup_insert_eq | now apply Z.ltb_lt].
  - intros [= <- <- <-]. split; [now destruct (_ <? _) | split].
    + intros p Hp. now rewrite lookup_delete_ne by congruence.
    + apply lookup_delete_eq.
Qed.

(** Every iteration establishes [after_attempt]. *)
Lemma attempt_once_spec attempt fs o fs' evs :
  attempt_once u filepath max_retries e attempt fs = (o, fs', evs) ->
  after_attempt filepath max_retries attempt fs o fs' evs.
Proof.
  unfold attempt_once, on_exception.
  assert (Hstore : forall r pre,
    attempts_made pre = 1%nat ->
    (let '(o0, fs0, evs0) := store u filepath max_retries e attempt r fs in
     (o0, fs0, pre ++ evs0)) = (o, fs', evs) ->
    after_attempt filepath max_retries attempt fs o fs' evs).
  { intros r pre Hpre.
    destruct (store u filepath max_retries e attempt r fs) as [[o0 fs0] evs0] eqn:Hs.
    intros [= <- <- <-]. destruct (store_spec _ _ _ _ _ _ Hs) as (Hn & Hother & Ho).
    unfold after_attempt. rewrite attempts_made_app, Hpre, Hn.
    split; [reflexivity|]. split; [exact Hother|].
    destruct o0; [exact Ho | now left]. }
  assert (Hfail : forall pre,
    attempts_made pre = 1%nat ->
    (NextAttempt, delete filepath fs,
     pre ++ (if Z.of_nat attempt <? max_retries - 1
             then [Sleep (2 ^ Z.of_nat attempt)] else []))
    = (o, fs', evs) ->
    after_attempt filepath max_retries attempt fs o fs' evs).
  { intros pre Hpre [= <- <- <-]. unfold after_attempt.
    rewrite attempts_made_app, Hpre.
    split; [now destruct (_ <? _)|]. split.
    - intros p Hp. now rewrite lookup_delete_ne by congruence.
    - left. apply lookup_delete_eq. }
  destruct (get e attempt true) as [| |r].
  - destruct (get e attempt false) as [| |r];
      [apply Hfail; reflexivity | apply Hfail; reflexivity |].
    destruct (raises_for_status r); [apply Hfail | apply Hstore]; reflexivity.
  - apply Hfail; reflexivity.
  - destruct (raises_for_status r); [|apply Hstore; reflexivity].
    destruct (status_code r =? 403); cbn [andb]; [|apply Hfail; reflexivity].
    destruct (Z.of_nat attempt <? max_retries - 1) eqn:Hlt.
    + intros [= <- <- <-]. split; [reflexivity|]. split; [reflexivity|].
      right. split; [reflexivity | now apply Z.ltb_lt].
    + intros H. eapply Hfail; [|exact H]. reflexivity.
Qed.

(** The loop, started at iteration [attempt] with [remaining]
    iterations to go. *)
Lemma attempts_from_spec remaining :
  forall attempt fs ok fs' evs,
    attempts_from u filepath max_retries e remaining attempt fs = (ok, fs', evs) ->
    (attempts_made evs <= remaining)%nat
    /\ (forall p, p <> filepath -> fs' !! p = fs !! p)
    /\ (ok = true ->
        exists b, fs' !! filepath = Some b /\ 1000 < Z.of_nat (List.length b))
    /\ (ok = false -> remaining <> O ->
        Z.of_nat (attempt + remaining) = max_retries ->
        fs' !! filepath = None)
    /\ (remaining = O -> ok = false /\ fs' = fs /\ evs = []).
Proof.
  induction remaining as [|k IH]; intros attempt fs ok fs' evs; cbn [attempts_from].
  - intros [= <- <- <-]. split; [reflexivity|]. split; [reflexivity|].
    split; [discriminate|]. split; [intros _ H; now destruct H | auto].
  - destruct (attempt_once u filepath max_retries e attempt fs)
      as [[o fs1] evs1] eqn:Ha.
    destruct (attempt_once_spec _ _ _ _ _ Ha) as (Hn & Hother & Ho).
    destruct o.
    + intros [= <- <- <-]. rewrite Hn.
      repeat split; try lia; try discriminate; auto.
    + destruct (attempts_from u filepath max_retries e k (S attempt) fs1)
        as [[b fs2] evs2] eqn:Hr.
      destruct (IH _ _ _ _ _ Hr) as (Hn2 & Hother2 & Hok2 & Hfail2 & Hzero2).
      intros [= <- <- <-]. rewrite attempts_made_app, Hn.
      split; [lia|]. split; [|split; [exact Hok2 | split; [|discriminate]]].
      * intros p Hp. rewrite Hother2, Hother; auto.
      * intros Hb _ Hmax. destruct k as [|k'].
        -- destruct (Hzero2 eq_refl) as (_ & -> & _).
           destruct Ho as [Ho | [_ Hlt]]; [exact Ho | lia].
        -- apply Hfail2; [exact Hb | discriminate | lia].
Qed.





End FetcherFacts.

Section FetcherClaims.
Import PyStr Fetcher.

(** C2, counterexample.  With [max_retries = 0] the loop body never
    runs: the call returns False and a file that was at the destination
    before the call (here four bytes long) is still there. *)
Lemma zero_retries_leave_existing_file :
  download_pdf "https://example.org/1.pdf" "paper.pdf" 0 unreachable
    {[ "paper.pdf"%string := pdf_signature ]}
  = (false, {[ "paper.pdf"%string := pdf_signature ]}, [])
  /\ ({[ "paper.pdf"%string := pdf_signature ]} : files) !! "paper.pdf"%string
     = Some pdf_signature.
Proof. split; reflexivity. Qed.

(** C2, amended.  [download_pdf] makes at most [max(max_retries, 0)]
    attempts.  When [max_retries >= 1] and it returns False, no file is
    at the destination; a file is there at the end only when it returns
    True, and then it has more than 1000 bytes.  When [max_retries <= 0]
    it makes no attempt, returns False and leaves the files as they
    were.  No other path is ever touched. *)
Theorem download_pdf_attempts_and_cleanup u filepath max_retries e fs ok fs' evs :
  download_pdf u filepath max_retries e fs = (ok, fs', evs) ->
  (attempts_made evs <= Z.to_nat max_retries)%nat
  /\ (0 < max_retries -> ok = false -> fs' !! filepath = None)
  /\ (0 < max_retries -> forall b, fs' !! filepath = Some b ->
                         ok = true /\ 1000 < Z.of_nat (List.length b))
  /\ (max_retries <= 0 -> ok = false /\ fs' = fs /\ evs = [])
  /\ (forall p, p <> filepath -> fs' !! p = fs !! p).
Proof.
  unfold download_pdf. intros H.
  destruct (attempts_from_spec _ _ _ _ _ _ _ _ _ _ H)
    as (Hn & Hother & Hok & Hfail & Hzero).
  assert (Hclean : 0 < max_retries -> ok = false -> fs' !! filepath = None).
  { intros Hpos Hf. apply Hfail; [exact Hf | lia | lia]. }
  split; [exact Hn|]. split; [exact Hclean|]. split.
  - intros Hpos b Hb. destruct ok.
    + split; [reflexivity|]. destruct (Hok eq_refl) as (b' & Hb' & Hsize).
      congruence.
    + rewrite (Hclean Hpos eq_refl) in Hb. discriminate.
  - split; [|exact Hother]. intros Hle. apply Hzero. lia.
Qed.

Lemma download_pdf_attempts_and_cleanup_witness :
  download_pdf "https://example.org/1.pdf" "paper.pdf" 2 unreachable
    {[ "paper.pdf"%string := pdf_signature ]}
  = (false, ∅,
     [Attempt 1; Request (user_agent 0) true; Sleep 1;
      Attempt 2; Request (user_agent 1) true])
  /\ (∅ : files) !! "paper.pdf"%string = None.
Proof.
  split; [reflexivity|].
  refine (proj1 (proj2 (download_pdf_attempts_and_cleanup
                         "https://example.org/1.pdf" "paper.pdf" 2 unreachable
                         {[ "paper.pdf"%string := pdf_signature ]}
                         false ∅ _ eq_refl)) _ eq_refl).
  lia.
Defined.

(** C3 (the code departs from the claim).  A 3000-byte PDF served
    with content type application/octet-stream from a URL that does not
    end in ".pdf": the first 1024 bytes are read to look for the
    signature and are not written; [download_pdf] returns True with
    only the last 1976 bytes at the destination. *)
Theorem unannounced_pdf_loses_first_chunk :
  let '(ok, fs', _) :=
    download_pdf "https://example.org/article/1" "paper.pdf" 3 octet_stream ∅ in
  ok = true
  /\ fs' !! "paper.pdf"%string = Some (skipn 1024 sample_body)
  /\ List.length sample_body = 3000%nat
  /\ List.length (skipn 1024 sample_body) = 1976%nat
  /\ skipn 1024 sample_body <> sample_body.
Proof.
  vm_compute. repeat split. discriminate.
Qed.




End FetcherClaims.


(* ===================================================================== *)
(** * Facts about the string primitives *)
(* ===================================================================== *)

Section StringFacts.
Import PyStr.

Lemma append_cons c p s : String c p +:+ s = String c (p +:+ s).
Proof. reflexivity. Qed.

Lemma append_empty_r s : s +:+ EmptyString = s.
Proof. induction s as [|c s IH]; [reflexivity|]. now rewrite append_cons, IH. Qed.

Lemma append_associative a b c : (a +:+ b) +:+ c = a +:+ (b +:+ c).
Proof. induction a as [|x a IH]; [reflexivity|]. now rewrite !append_cons, IH. Qed.

Lemma length_append a b :
  String.length (a +:+ b) = (String.length a + String.length b)%nat.
Proof.
  induction a as [|x a IH]; [reflexivity|].
  rewrite append_cons. cbn [String.length]. now rewrite IH.
Qed.

(** [startswith] and [contains] in terms of concatenation. *)
Lemma startswith_iff s p : startswith s p = true <-> exists b, s = p +:+ b.
Proof.
  revert s. induction p as [|c p IH]; intros s.
  - split; [intros _; now exists s | reflexivity].
  - destruct s as [|a s]; cbn [startswith].
    + split; [discriminate | intros [b Hb]; discriminate].
    + destruct (Ascii.eqb_spec a c) as [->|Hne].
      * rewrite IH. split; intros [b Hb]; exists b.
        -- now rewrite append_cons, Hb.
        -- rewrite append_cons in Hb. now injection Hb.
      * split; [discriminate|]. intros [b Hb]. rewrite append_cons in Hb.
        injection Hb as Hac _. contradiction.
Qed.

Lemma contains_iff s t : contains s t = true <-> exists a b, s = a +:+ t +:+ b.
Proof.
  induction s as [|c s IH]; cbn [contains].
  - rewrite orb_false_r, startswith_iff. split.
    + intros [b Hb]. now exists EmptyString, b.
    + intros (a & b & H). destruct a; [now exists b|discriminate].
  - rewrite orb_true_iff, startswith_iff, IH. split.
    + intros [[b Hb] | (a & b & H)].
      * now exists EmptyString, b.
      * exists (String c a), b. now rewrite append_cons, H.
    + intros (a & b & H). destruct a as [|x a].
      * left. now exists b.
      * right. rewrite append_cons in H. injection H as _ H. now exists a, b.
Qed.

Lemma contains_trans s t u :
  contains s t = true -> contains t u = true -> contains s u = true.
Proof.
  rewrite !contains_iff. intros (a & b & ->) (a' & b' & ->).
  exists (a +:+ a'), (b' +:+ b). now rewrite !append_associative.
Qed.

Lemma contains_append_l p s t : contains s t = true -> contains (p +:+ s) t = true.
Proof.
  rewrite !contains_iff. intros (a & b & ->). exists (p +:+ a), b.
  now rewrite !append_associative.
Qed.

Lemma rev_onto_append s acc : rev_onto s acc = reverse s +:+ acc.
Proof.
  unfold reverse. revert acc. induction s as [|c s IH]; intros acc; [reflexivity|].
  cbn [rev_onto]. rewrite IH, (IH (String c EmptyString)).
  now rewrite append_associative.
Qed.

Lemma reverse_cons c s : reverse (String c s) = reverse s +:+ String c EmptyString.
Proof. unfold reverse at 1. cbn [rev_onto]. apply rev_onto_append. Qed.

Lemma reverse_append a b : reverse (a +:+ b) = reverse b +:+ reverse a.
Proof.
  induction a as [|c a IH].
  - cbn. now rewrite append_empty_r.
  - now rewrite append_cons, !reverse_cons, IH, append_associative.
Qed.

Lemma reverse_involutive s : reverse (reverse s) = s.
Proof.
  induction s as [|c s IH]; [reflexivity|].
  now rewrite reverse_cons, reverse_append, IH.
Qed.

Lemma endswith_iff s p : endswith s p = true <-> exists a, s = a +:+ p.
Proof.
  unfold endswith. rewrite startswith_iff. split.
  - intros [b Hb]. exists (reverse b).
    rewrite <- (reverse_involutive s), Hb, reverse_append.
    now rewrite reverse_involutive.
  - intros [a ->]. exists (reverse a). apply reverse_append.
Qed.

(** [lower] works character by character. *)
Lemma lower_append a b : lower (a +:+ b) = lower a +:+ lower b.
Proof.
  induction a as [|c a IH]; [reflexivity|].
  rewrite append_cons. cbn [lower]. now rewrite append_cons, IH.
Qed.

Lemma contains_lower s t : contains s t = true -> contains (lower s) (lower t) = true.
Proof.
  rewrite !contains_iff. intros (a & b & ->). exists (lower a), (lower b).
  now rewrite !lower_append.
Qed.

(** Facts about all characters of a string. *)
Lemma all_chars_append f a b :
  all_chars f (a +:+ b) = all_chars f a && all_chars f b.
Proof.
  induction a as [|c a IH]; [reflexivity|].
  rewrite append_cons. cbn [all_chars]. now rewrite IH, andb_assoc.
Qed.

Lemma all_chars_filter f s : all_chars f (filter_chars f s) = true.
Proof.
  induction s as [|c s IH]; [reflexivity|]. cbn [filter_chars].
  destruct (f c) eqn:E; [|exact IH]. cbn [all_chars]. now rewrite E, IH.
Qed.

Lemma all_chars_lstrip f g s :
  all_chars f s = true -> all_chars f (lstrip_by g s) = true.
Proof.
  induction s as [|c s IH]; [reflexivity|]. cbn [lstrip_by all_chars].
  intros H. destruct (g c); [|exact H].
  apply andb_prop in H as [_ H]. now apply IH.
Qed.

Lemma all_chars_rstrip f g s :
  all_chars f s = true -> all_chars f (rstrip_by g s) = true.
Proof.
  induction s as [|c s IH]; [reflexivity|]. cbn [rstrip_by all_chars].
  intros H. apply andb_prop in H as [Hc H]. specialize (IH H).
  destruct (rstrip_by g s) as [|x r].
  - destruct (g c); [reflexivity|]. cbn [all_chars]. now rewrite Hc.
  - cbn [all_chars] in *. now rewrite Hc, IH.
Qed.

Lemma all_chars_slice_to f n s :
  all_chars f s = true -> all_chars f (slice_to n s) = true.
Proof.
  revert s. induction n as [|n IH]; intros [|c s]; try reflexivity.
  cbn [slice_to all_chars]. intros H. apply andb_prop in H as [Hc H].
  now rewrite Hc, IH.
Qed.

Lemma length_slice_to n s : (String.length (slice_to n s) <= n)%nat.
Proof.
  revert s. induction n as [|n IH]; intros [|c s]; cbn [slice_to String.length]; try lia.
  specialize (IH s). lia.
Qed.

(** White space around a string does not change what [strip] returns. *)
Lemma lstrip_by_skip f w s :
  all_chars f w = true -> lstrip_by f (w +:+ s) = lstrip_by f s.
Proof.
  induction w as [|c w IH]; [reflexivity|]. cbn [all_chars]. intros H.
  apply andb_prop in H as [Hc H]. rewrite append_cons. cbn [lstrip_by].
  rewrite Hc. now apply IH.
Qed.

Lemma rstrip_by_blank f w : all_chars f w = true -> rstrip_by f w = EmptyString.
Proof.
  induction w as [|c w IH]; [reflexivity|]. cbn [all_chars rstrip_by]. intros H.
  apply andb_prop in H as [Hc H]. now rewrite (IH H), Hc.
Qed.

Lemma rstrip_by_skip f s w :
  all_chars f w = true -> rstrip_by f (s +:+ w) = rstrip_by f s.
Proof.
  intros H. induction s as [|c s IH].
  - cbn. now apply rstrip_by_blank.
  - rewrite append_cons. cbn [rstrip_by]. now rewrite IH.
Qed.

Lemma strip_by_skip_left f w s :
  all_chars f w = true -> strip_by f (w +:+ s) = strip_by f s.
Proof.
  unfold strip_by. induction w as [|c w IH]; [reflexivity|]. cbn [all_chars].
  intros H. apply andb_prop in H as [Hc H]. specialize (IH H).
  rewrite append_cons. cbn [rstrip_by].
  destruct (rstrip_by f (w +:+ s)) as [|x r] eqn:E.
  - rewrite Hc. cbn [lstrip_by] in *. exact IH.
  - cbn [lstrip_by]. rewrite Hc. exact IH.
Qed.

Lemma strip_by_skip f w1 s w2 :
  all_chars f w1 = true -> all_chars f w2 = true ->
  strip_by f (w1 +:+ s +:+ w2) = strip_by f s.
Proof.
  intros H1 H2. rewrite (strip_by_skip_left f w1 _ H1).
  unfold strip_by. now rewrite rstrip_by_skip.
Qed.

End StringFacts.

(* ===================================================================== *)
(** * More on the identifier normaliser *)
(* ===================================================================== *)

Section NormalizerExtras.
Import PyStr Normalizer.

(** X1.  White space around the input never changes the result of
    [clean_doi]: for all strings [w1], [w2] of white-space characters,
    [clean_doi(w1 + s + w2) = clean_doi(s)]. *)
Theorem clean_doi_ignores_outer_whitespace w1 s w2 :
  all_chars isspace w1 = true -> all_chars isspace w2 = true ->
  clean_doi (w1 +:+ s +:+ w2) = clean_doi s.
Proof.
  intros H1 H2. unfold clean_doi, strip.
  now rewrite (strip_by_skip isspace w1 s w2 H1 H2).
Qed.

Lemma clean_doi_ignores_outer_whitespace_witness :
  clean_doi ("  " +:+ "doi:10.1000/182" +:+ " ") = clean_doi "doi:10.1000/182".
Proof.
  apply (clean_doi_ignores_outer_whitespace "  " "doi:10.1000/182" " "); reflexivity.
Defined.

(** X2.  A recognised prefix is removed and the body behind it is
    returned as it is, whenever the body has no trailing white space and
    the prefix does not occur in it again. *)
Theorem clean_doi_returns_body p s :
  In p recognized_prefixes ->
  rstrip_by isspace s = s -> contains s p = false ->
  clean_doi (p +:+ s) = s.
Proof. exact (clean_doi_strips_leading_prefix p s). Qed.

Lemma clean_doi_returns_body_witness :
  clean_doi ("http://doi.org/" +:+ "10.1000/182") = "10.1000/182"%string.
Proof.
  apply (clean_doi_returns_body "http://doi.org/" "10.1000/182");
    [right; left; reflexivity | reflexivity | reflexivity].
Defined.

End NormalizerExtras.

(* ===================================================================== *)
(** * Properties of the file names *)
(* ===================================================================== *)

Section FilenameFacts.
Import PyStr Normalizer Filenames.

Lemma filter_chars_fixed f s : all_chars f s = true -> filter_chars f s = s.
Proof.
  induction s as [|c s IH]; [reflexivity|]. cbn [all_chars filter_chars].
  intros H. apply andb_prop in H as [Hc H]. now rewrite Hc, IH.
Qed.

Lemma all_chars_collapse f b s :
  f " "%char = true -> all_chars f s = true ->
  all_chars f (collapse_spaces_from b s) = true.
Proof.
  intros Hb. revert b. induction s as [|c s IH]; intros b; [reflexivity|].
  cbn [all_chars collapse_spaces_from]. intros H. apply andb_prop in H as [Hc H].
  destruct (isspace c); [destruct b|]; cbn [all_chars];
    rewrite ?Hb, ?Hc, IH; auto.
Qed.

Lemma all_chars_join f sep l :
  all_chars f sep = true -> Forall (fun w => all_chars f w = true) l ->
  all_chars f (join sep l) = true.
Proof.
  intros Hs. induction 1 as [|w l Hw Hl IH]; [reflexivity|].
  cbn [join]. destruct l as [|w' l']; [exact Hw|].
  rewrite !all_chars_append, Hw, Hs. exact IH.
Qed.

(** The string before truncation. *)
Lemma cleaned_allowed t :
  all_chars allowed (strip (collapse_spaces (filter_chars allowed t))) = true.
Proof.
  unfold strip, strip_by, collapse_spaces.
  apply all_chars_lstrip, all_chars_rstrip, all_chars_collapse;
    [reflexivity | apply all_chars_filter].
Qed.

Lemma clean_filename_allowed t : all_chars allowed (clean_filename t) = true.
Proof.
  unfold clean_filename. pose proof (cleaned_allowed t) as Ha.
  destruct (_ <? _)%nat; [|exact Ha].
  rewrite all_chars_append, all_chars_slice_to; [reflexivity | exact Ha].
Qed.

(** X3.  [clean_filename] never returns one of the characters it is
    meant to remove (less-than, greater-than, colon, double quote, slash,
    backslash, bar, question mark, star), and its result has at most 203
    characters: 200 of the text and the three dots. *)
Theorem clean_filename_safe_and_short t :
  all_chars allowed (clean_filename t) = true
  /\ (String.length (clean_filename t) <= 203)%nat.
Proof.
  split; [apply clean_filename_allowed|].
  unfold clean_filename.
  set (cleaned := strip (collapse_spaces (filter_chars allowed t))).
  destruct (200 <? String.length cleaned)%nat eqn:E.
  - rewrite length_append. pose proof (length_slice_to 200 cleaned).
    cbn [String.length]. lia.
  - apply Nat.ltb_ge in E. lia.
Qed.

(** X4.  The name of a downloaded file contains no slash, no backslash
    and none of the other removed characters, whatever the year, author
    and title are, and it ends in ".pdf". *)
Theorem pdf_filename_has_no_separator y a t :
  all_chars allowed (pdf_filename y a t) = true
  /\ endswith (pdf_filename y a t) ".pdf" = true.
Proof.
  unfold pdf_filename. split.
  - rewrite all_chars_append. apply andb_true_intro. split; [|reflexivity].
    apply all_chars_join; [reflexivity|].
    apply List.Forall_forall. intros w Hw. apply in_map_iff in Hw as (x & <- & _).
    apply clean_filename_allowed.
  - apply endswith_iff. eexists. reflexivity.
Qed.

(** ** Cleaning a clean name *)

Lemma tidy_any b s : tidy true s = true -> tidy b s = true.
Proof.
  destruct s as [|c s]; [reflexivity|]. cbn [tidy].
  destruct (isspace c); [|auto]. rewrite andb_false_r. discriminate.
Qed.

Lemma tidy_fixed b s : tidy b s = true -> collapse_spaces_from b s = s.
Proof.
  revert b. induction s as [|c s IH]; intros b; [reflexivity|].
  cbn [tidy collapse_spaces_from]. destruct (isspace c).
  - intros H. apply andb_prop in H as [H Ht]. apply andb_prop in H as [Hc Hb].
    apply Ascii.eqb_eq in Hc. subst c. destruct b; [discriminate|].
    now rewrite (IH true Ht).
  - intros H. now rewrite (IH false H).
Qed.

Lemma tidy_collapse b s : tidy b (collapse_spaces_from b s) = true.
Proof.
  revert b. induction s as [|c s IH]; intros b; [reflexivity|].
  cbn [collapse_spaces_from]. destruct (isspace c) eqn:E.
  - destruct b; [apply IH|].
    change (tidy true (collapse_spaces_from true s) = true). apply IH.
  - cbn [tidy]. rewrite E. apply IH.
Qed.

Lemma tidy_lstrip b s : tidy b s = true -> tidy false (lstrip_by isspace s) = true.
Proof.
  revert b. induction s as [|c s IH]; intros b; [reflexivity|].
  cbn [lstrip_by]. destruct (isspace c) eqn:E.
  - cbn [tidy]. rewrite E. intros H. apply andb_prop in H as [_ H]. now apply (IH true).
  - cbn [tidy]. now rewrite E.
Qed.

Lemma tidy_rstrip b s : tidy b s = true -> tidy b (rstrip_by isspace s) = true.
Proof.
  revert b. induction s as [|c s IH]; intros b; [reflexivity|].
  cbn [rstrip_by tidy]. destruct (isspace c) eqn:E.
  - intros H. apply andb_prop in H as [H Ht]. specialize (IH true Ht).
    destruct (rstrip_by isspace s) as [|x r]; [reflexivity|].
    cbn [tidy] in *. now rewrite E, H.
  - intros H. specialize (IH false H).
    destruct (rstrip_by isspace s) as [|x r]; cbn [tidy] in *; now rewrite E.
Qed.

Lemma tidy_slice_to b n s : tidy b s = true -> tidy b (slice_to n s) = true.
Proof.
  revert b s. induction n as [|n IH]; intros b [|c s]; try reflexivity.
  cbn [slice_to tidy]. destruct (isspace c).
  - intros H. apply andb_prop in H as [H Ht]. now rewrite H, (IH true s Ht).
  - apply IH.
Qed.

Lemma tidy_append b s t :
  tidy b s = true -> tidy true t = true -> tidy b (s +:+ t) = true.
Proof.
  intros Hs Ht. revert b Hs. induction s as [|c s IH]; intros b Hs.
  - now apply tidy_any.
  - rewrite append_cons. cbn [tidy] in *. destruct (isspace c).
    + apply andb_prop in Hs as [H Hs]. now rewrite H, (IH true Hs).
    + now apply IH.
Qed.

Lemma lstrip_by_idempotent f s : lstrip_by f (lstrip_by f s) = lstrip_by f s.
Proof.
  induction s as [|c s IH]; [reflexivity|]. cbn [lstrip_by].
  destruct (f c) eqn:E; [exact IH|]. cbn [lstrip_by]. now rewrite E.
Qed.

Lemma rstrip_by_idempotent f s : rstrip_by f (rstrip_by f s) = rstrip_by f s.
Proof.
  induction s as [|c s IH]; [reflexivity|]. cbn [rstrip_by].
  destruct (rstrip_by f s) as [|x r] eqn:E.
  - destruct (f c) eqn:Ec; [reflexivity|]. cbn [rstrip_by]. now rewrite Ec.
  - cbn [rstrip_by] in *. now rewrite IH.
Qed.

(** Stripping on the left keeps a string without trailing white space
    free of it. *)
Lemma rstrip_lstrip_fixed f s :
  rstrip_by f s = s -> rstrip_by f (lstrip_by f s) = lstrip_by f s.
Proof.
  induction s as [|c s IH]; [reflexivity|]. cbn [lstrip_by].
  destruct (f c) eqn:E; [|auto]. cbn [rstrip_by]. rewrite E.
  destruct (rstrip_by f s) as [|x r] eqn:Er; [discriminate|].
  intros H. injection H as H. apply IH. congruence.
Qed.

Lemma strip_is_trimmed s : trimmed (strip s).
Proof.
  unfold trimmed, strip, strip_by. split.
  - apply lstrip_by_idempotent.
  - apply rstrip_lstrip_fixed, rstrip_by_idempotent.
Qed.

Lemma length_lstrip f s : (String.length (lstrip_by f s) <= String.length s)%nat.
Proof.
  induction s as [|c s IH]; [reflexivity|]. cbn [lstrip_by].
  destruct (f c); cbn [String.length]; lia.
Qed.

Lemma lstrip_fixed_head f c s : lstrip_by f (String c s) = String c s -> f c = false.
Proof.
  cbn [lstrip_by]. destruct (f c); [|reflexivity]. intros H.
  pose proof (length_lstrip f s) as Hl. rewrite H in Hl.
  cbn [String.length] in Hl. lia.
Qed.

Lemma rstrip_append_fixed f s t :
  t <> EmptyString -> rstrip_by f t = t -> rstrip_by f (s +:+ t) = s +:+ t.
Proof.
  intros Hne Ht. induction s as [|c s IH]; [exact Ht|].
  rewrite append_cons. cbn [rstrip_by]. rewrite IH.
  destruct (s +:+ t) eqn:E; [|reflexivity].
  destruct s; [cbn in E; contradiction | discriminate].
Qed.

Lemma slice_to_append s t : slice_to (String.length s) (s +:+ t) = s.
Proof.
  induction s as [|c s IH]; [now destruct t|].
  rewrite append_cons. cbn [String.length slice_to]. now rewrite IH.
Qed.

Lemma length_slice_to_exact n s :
  (n <= String.length s)%nat -> String.length (slice_to n s) = n.
Proof.
  revert s. induction n as [|n IH]; intros [|c s]; cbn [slice_to String.length];
    try lia. intros H. rewrite IH; lia.
Qed.

(** The three passes of [clean_filename] leave alone a string that is
    free of forbidden characters, tidy and trimmed. *)
Lemma passes_fixed s :
  all_chars allowed s = true -> tidy false s = true -> trimmed s ->
  strip (collapse_spaces (filter_chars allowed s)) = s.
Proof.
  intros Ha Ht Hs. rewrite (filter_chars_fixed _ _ Ha).
  unfold collapse_spaces. rewrite (tidy_fixed _ _ Ht). now apply strip_trimmed.
Qed.

(** X5.  [clean_filename] is idempotent: cleaning a cleaned name, also a
    truncated one, returns it unchanged. *)
Theorem clean_filename_idempotent t :
  clean_filename (clean_filename t) = clean_filename t.
Proof.
  unfold clean_filename at 2 3.
  pose proof (cleaned_allowed t) as Ha.
  assert (Ht : tidy false (strip (collapse_spaces (filter_chars allowed t))) = true).
  { unfold strip, strip_by, collapse_spaces.
    apply (tidy_lstrip false), tidy_rstrip, tidy_collapse. }
  pose proof (strip_is_trimmed (collapse_spaces (filter_chars allowed t))) as Hs.
  set (cleaned := strip (collapse_spaces (filter_chars allowed t))) in *.
  destruct (200 <? String.length cleaned)%nat eqn:E.
  - apply Nat.ltb_lt in E.
    assert (Hlen : String.length (slice_to 200 cleaned) = 200%nat)
      by (apply length_slice_to_exact; lia).
    set (head := slice_to 200 cleaned) in *.
    assert (Hfix : strip (collapse_spaces (filter_chars allowed (head +:+ "...")))
                   = head +:+ "...").
    { apply passes_fixed.
      - rewrite all_chars_append. unfold head.
        rewrite all_chars_slice_to; [reflexivity | exact Ha].
      - apply tidy_append; [apply tidy_slice_to, Ht | reflexivity].
      - split.
        + destruct cleaned as [|c r]; [cbn in E; lia|].
          destruct Hs as [Hl _]. apply lstrip_fixed_head in Hl.
          unfold head. cbn [slice_to]. rewrite append_cons.
          cbn [lstrip_by]. now rewrite Hl.
        + apply rstrip_append_fixed; [discriminate | reflexivity]. }
    unfold clean_filename. rewrite Hfix, length_append, Hlen.
    cbn [String.length Nat.add]. change (200 <? 200 + 3)%nat with true.
    cbv iota. pose proof (slice_to_append head "...") as Hhead.
    rewrite Hlen in Hhead. now rewrite Hhead.
  - unfold clean_filename. fold cleaned.
    rewrite (passes_fixed cleaned Ha Ht Hs). now rewrite E.
Qed.

End FilenameFacts.

(* ===================================================================== *)
(** * More on the location resolver *)
(* ===================================================================== *)

Section ResolverExtras.
Import PyStr Normalizer Resolver.

(** A URL with "pdf" or "download" in it, in any case, passes the
    URL-shape check. *)
Lemma likely_of_marker u :
  contains (lower u) "pdf" = true \/ contains (lower u) "download" = true ->
  is_likely_pdf_url u = true.
Proof.
  intros H. unfold is_likely_pdf_url, contains_any.
  destruct (endswith _ _); [reflexivity|]. cbn [existsb].
  destruct H as [-> | ->]; [reflexivity | apply orb_true_r].
Qed.

Lemma marker_of_likely u :
  is_likely_pdf_url u = true ->
  contains (lower u) "pdf" = true \/ contains (lower u) "download" = true.
Proof.
  unfold is_likely_pdf_url, contains_any.
  destruct (endswith (lower u) ".pdf") eqn:E.
  - intros _. left. apply endswith_iff in E as [a Ha]. apply contains_iff.
    exists (a +:+ "."), EmptyString. rewrite Ha.
    now rewrite append_associative.
  - cbn [existsb]. rewrite orb_false_r, !orb_true_iff.
    intros [H | [H | [H | H]]]; auto; left;
      (eapply contains_trans; [exact H | reflexivity]).
Qed.

(** X6.  The URL-shape check amounts to two substring tests on the
    lower-cased URL: [is_likely_pdf_url(url)] is true exactly when it
    contains "pdf" or "download"; the ".pdf" ending and the two longer
    indicators add nothing. *)
Theorem is_likely_pdf_url_two_markers u :
  is_likely_pdf_url u
  = contains (lower u) "pdf" || contains (lower u) "download".
Proof.
  destruct (is_likely_pdf_url u) eqn:E.
  - symmetry. apply orb_true_iff. now apply marker_of_likely.
  - symmetry. apply orb_false_iff.
    destruct (contains (lower u) "pdf") eqn:E1.
    + rewrite likely_of_marker in E; [discriminate | now left].
    + destruct (contains (lower u) "download") eqn:E2; [|now split].
      rewrite likely_of_marker in E; [discriminate | now right].
Qed.

(** ** Where the candidates come from *)

Lemma first_pdf_content_Some ms c :
  first_pdf_content ms = Some c ->
  exists tag, In tag ms /\ meta_content tag = Some c /\ c <> EmptyString
              /\ contains (lower c) ".pdf" = true.
Proof.
  induction ms as [|m ms IH]; cbn [first_pdf_content]; [discriminate|].
  destruct (meta_content m) as [x|] eqn:Em; cbn [default from_option id].
  - destruct (negb (is_empty x) && contains (lower x) ".pdf") eqn:E.
    + intros [= <-]. apply andb_prop in E as [E1 E2].
      exists m. split; [now left|]. split; [exact Em|]. split; [|exact E2].
      intros ->. discriminate.
    + intros H. destruct (IH H) as (tag & Hin & Hrest). exists tag. split; [now right|exact Hrest].
  - cbn [is_empty negb andb]. intros H.
    destruct (IH H) as (tag & Hin & Hrest). exists tag. split; [now right|exact Hrest].
Qed.

Lemma first_pdf_content_None ms :
  first_pdf_content ms = None ->
  forall tag c, In tag ms -> meta_content tag = Some c ->
                contains (lower c) ".pdf" = false.
Proof.
  induction ms as [|m ms IH]; cbn [first_pdf_content]; [intros _ tag c []|].
  destruct (negb _ && _) eqn:E; [discriminate|].
  intros H tag c [<- | Hin] Hc; [|now apply (IH H tag)].
  rewrite Hc in E. cbn [default from_option id] in E.
  destruct c; [reflexivity|]. exact E.
Qed.


(** X7.  What [find_pdf_in_meta_tags] returns is the non-empty content
    of a meta tag of the page, either of a tag named citation_pdf_url or
    one with ".pdf" in it (in any case); when it returns nothing, no
    meta tag of the page has ".pdf" in its content. *)
Theorem find_pdf_in_meta_tags_from_page page :
  (forall c, find_pdf_in_meta_tags page = Some c ->
     exists tag, In tag (metas page) /\ meta_content tag = Some c
                 /\ c <> EmptyString
                 /\ (meta_name tag = Some "citation_pdf_url"%string
                     \/ contains (lower c) ".pdf" = true))
  /\ (find_pdf_in_meta_tags page = None ->
      forall tag c, In tag (metas page) -> meta_content tag = Some c ->
                    contains (lower c) ".pdf" = false).
Proof.
  unfold find_pdf_in_meta_tags.
  assert (Hloop : forall c, first_pdf_content (metas page) = Some c ->
     exists tag, In tag (metas page) /\ meta_content tag = Some c
                 /\ c <> EmptyString
                 /\ (meta_name tag = Some "citation_pdf_url"%string
                     \/ contains (lower c) ".pdf" = true)).
  { intros c H. destruct (first_pdf_content_Some _ _ H) as (tag & ? & ? & ? & ?).
    exists tag. auto. }
  destruct (List.find _ _) as [tag|] eqn:F.
  - apply find_some in F as [Hin Hname].
    destruct (truthy (meta_content tag)) eqn:T.
    + split; [|intros H; rewrite H in T; discriminate].
      intros c Hc. exists tag. repeat split; auto.
      * intros ->. rewrite Hc in T. discriminate.
      * left. unfold has_name in Hname.
        destruct (meta_name tag) as [n|]; [|discriminate].
        apply String.eqb_eq in Hname. now subst.
    + split; [exact Hloop | apply first_pdf_content_None].
  - split; [exact Hloop | apply first_pdf_content_None].
Qed.

Lemma find_pdf_in_meta_tags_from_page_witness :
  exists tag, In tag (metas landing_page)
              /\ meta_content tag = Some "https://example.org/files/1.pdf"%string
              /\ "https://example.org/files/1.pdf"%string <> EmptyString
              /\ (meta_name tag = Some "citation_pdf_url"%string
                  \/ contains (lower "https://example.org/files/1.pdf") ".pdf" = true).
Proof.
  apply (proj1 (find_pdf_in_meta_tags_from_page landing_page)). reflexivity.
Defined.

Lemma links_where_In p label page c :
  In c (links_where p label page) ->
  exists a, In a (anchors page) /\ c.1 = href a /\ p a = true.
Proof.
  unfold links_where. intros H. apply in_map_iff in H as (a & <- & Ha).
  apply filter_In in Ha as [Hin Hp]. now exists a.
Qed.

(** Every publisher-pattern candidate carries "pdf" or "download". *)
Lemma publisher_candidate_marked u page c :
  In c (get_publisher_pdf_patterns u page) ->
  contains c.1 "pdf" = true \/ contains c.1 "download" = true.
Proof.
  unfold get_publisher_pdf_patterns.
  repeat match goal with
  | |- context [if ?b then _ else _] => destruct b
  end;
  try (intros H; apply in_app_or in H as [H | H]);
  try (intros H);
  try (apply links_where_In in H as (a & _ & -> & Hp));
  try (apply andb_prop in Hp as [Hp _]);
  try (apply orb_prop in Hp as [Hp | Hp]);
  try (now right); try (now left);
  try (left; eapply contains_trans; [exact Hp | reflexivity]);
  try contradiction.
  - destruct (pmc_search u) as [pmc_id|]; [|contradiction].
    destruct H as [<- | []]. left. cbn [fst]. apply contains_iff.
    exists ("https://www.ncbi.nlm.nih.gov/pmc/articles/" +:+ pmc_id +:+ "/")%string,
           "/"%string.
    now rewrite !append_associative.
Qed.

End ResolverExtras.

Section ResolverResults.
Import PyStr Normalizer Resolver.

Variable url_origin : string -> option string.
Variable urljoin : string -> string -> option string.

Lemma lower_marker s m :
  lower m = m -> contains s m = true -> contains (lower s) m = true.
Proof. intros Hm H. rewrite <- Hm. now apply contains_lower. Qed.

(** X8.  A publisher-pattern candidate is never rejected by the
    URL-shape check when its link is absolute or root-relative: each of
    them has "pdf" or "download" in its URL.  Such a candidate passes
    the check once made absolute, and making it absolute only fails
    when the landing URL itself cannot be parsed. *)
Theorem publisher_candidates_pass_check u page c :
  In c (get_publisher_pdf_patterns u page) ->
  startswith c.1 "/" = true \/ startswith c.1 "http" = true ->
  (forall v, absolute url_origin urljoin u c.1 = Some v ->
             is_likely_pdf_url v = true)
  /\ (absolute url_origin urljoin u c.1 = None -> url_origin u = None).
Proof.
  intros Hin Hform.
  assert (Hm : contains (lower c.1) "pdf" = true
               \/ contains (lower c.1) "download" = true).
  { destruct (publisher_candidate_marked u page c Hin) as [H | H];
      [left | right]; now apply lower_marker. }
  unfold absolute. destruct (startswith c.1 "/") eqn:E.
  - destruct (url_origin u) as [base|]; [|split; [discriminate | reflexivity]].
    split; [|discriminate]. intros v [= <-]. apply likely_of_marker.
    rewrite lower_append. destruct Hm as [H | H]; [left | right];
      now apply contains_append_l.
  - destruct Hform as [H | H]; [discriminate|]. rewrite H. cbn [negb].
    split; [|discriminate]. intros v [= <-]. now apply likely_of_marker.
Qed.







(** X10.  A canonical identifier resolves to the same result whether it
    is given bare or behind a recognised prefix that does not occur in
    it again: the same resolver URL is requested. *)
Theorem prefixed_identifier_resolves_alike get p s :
  canonical s -> In p recognized_prefixes -> contains s p = false ->
  resolve_doi_to_pdf_url url_origin urljoin get (p +:+ s)
  = resolve_doi_to_pdf_url url_origin urljoin get s.
Proof.
  intros [Ht Hc] Hp Hn. unfold resolve_doi_to_pdf_url.
  rewrite (clean_doi_strips_leading_prefix p s Hp (proj2 Ht) Hn).
  now rewrite (clean_doi_fixed s Ht (canonical_unprefixed s Hc)).
Qed.

End ResolverResults.

Section ResolverResultsWitnesses.
Import PyStr Normalizer Resolver.

Lemma publisher_candidates_pass_check_witness :
  startswith "/articles/s1.pdf" "/" = true
  /\ forall url_origin urljoin,
       url_origin "https://www.nature.com/articles/s1"%string
       = Some "https://www.nature.com"%string ->
       absolute url_origin urljoin "https://www.nature.com/articles/s1"
         "/articles/s1.pdf"
       = Some "https://www.nature.com/articles/s1.pdf"%string
       /\ is_likely_pdf_url "https://www.nature.com/articles/s1.pdf" = true.
Proof.
  split; [reflexivity|]. intros url_origin urljoin Ho.
  assert (Ha : absolute url_origin urljoin "https://www.nature.com/articles/s1"
                 "/articles/s1.pdf"
               = Some "https://www.nature.com/articles/s1.pdf"%string)
    by (unfold absolute; cbn [startswith Ascii.eqb Bool.eqb]; now rewrite Ho).
  split; [exact Ha|].
  refine (proj1 (publisher_candidates_pass_check url_origin urljoin
           "https://www.nature.com/articles/s1"
           {| anchors := [ {| href := "/articles/s1.pdf"; link_text := "PDF" |} ];
              metas := [] |}
           ("/articles/s1.pdf", "Nature pattern")%string _ _) _ Ha).
  - left. reflexivity.
  - left. reflexivity.
Defined.


Lemma prefixed_identifier_resolves_alike_witness :
  contains "10.1000/182" "doi:" = false
  /\ forall url_origin urljoin,
       resolve_doi_to_pdf_url url_origin urljoin (fun _ _ => Reply landing)
         ("doi:" +:+ "10.1000/182")
       = resolve_doi_to_pdf_url url_origin urljoin (fun _ _ => Reply landing)
           "10.1000/182".
Proof.
  split; [reflexivity|]. intros url_origin urljoin.
  apply (prefixed_identifier_resolves_alike url_origin urljoin
           (fun _ _ => Reply landing) "doi:" "10.1000/182").
  - split; [split; reflexivity | reflexivity].
  - right. right. left. reflexivity.
  - reflexivity.
Defined.

End ResolverResultsWitnesses.

(* ===================================================================== *)
(** * More on the fetcher *)
(* ===================================================================== *)

Section FetcherExtras.
Import PyStr Fetcher.

Variables (u filepath : string) (max_retries : Z) (e : env).

Lemma retained_suffix r : exists inspected, body r = inspected ++ retained u r.
Proof.
  unfold retained. destruct (announced_as_pdf u r).
  - now exists [].
  - exists (firstn 1024 (body r)). symmetry. apply firstn_skipn.
Qed.

(** A stream that still delivers something is what [retained] says. *)
Lemma inspect_delivers r rest fails evs :
  inspect u r = Some (Delivers rest fails, evs) -> rest <> [] ->
  rest = retained u r /\ fails = truncated r.
Proof.
  unfold inspect, retained. destruct (announced_as_pdf u r); [now intros [= <- <- _]|].
  destruct (truncated r && _); [discriminate|].
  destruct (firstn _ _); [discriminate|].
  destruct (chunked r); intros [= <- <- _] Hne; [contradiction | now split].
Qed.

(** What [store] has written when the function returns. *)
Lemma store_returns attempt r fs fs' evs :
  store u filepath max_retries e attempt r fs = (ReturnTrue, fs', evs) ->
  truncated r = false /\ open_ok e attempt = true
  /\ fs' = <[filepath := retained u r]> fs
  /\ 1000 < Z.of_nat (List.length (retained u r)).
Proof.
  unfold store, on_exception.
  destruct (inspect u r) as [[[|rest fails] evs0]|] eqn:Hi; try discriminate.
  - destruct (open_ok e attempt); discriminate.
  - destruct (open_ok e attempt); [|discriminate].
    destruct fails eqn:Ef; [discriminate|].
    destruct (1000 <? _) eqn:E; [|discriminate].
    intros [= <- _]. apply Z.ltb_lt in E.
    assert (Hne : rest <> []) by (intros ->; cbn in E; lia).
    destruct (inspect_delivers _ _ _ _ Hi Hne) as [-> <-]. auto.
Qed.

Lemma attempt_once_returns attempt fs fs' evs :
  attempt_once u filepath max_retries e attempt fs = (ReturnTrue, fs', evs) ->
  exists r, received e attempt = Some r /\ raises_for_status r = false
            /\ truncated r = false /\ open_ok e attempt = true
            /\ fs' = <[filepath := retained u r]> fs
            /\ 1000 < Z.of_nat (List.length (retained u r)).
Proof.
  unfold attempt_once, received, on_exception.
  assert (Hstore : forall r pre,
    (let '(o0, fs0, evs0) := store u filepath max_retries e attempt r fs in
     (o0, fs0, pre ++ evs0)) = (ReturnTrue, fs', evs) ->
    truncated r = false /\ open_ok e attempt = true
    /\ fs' = <[filepath := retained u r]> fs
    /\ 1000 < Z.of_nat (List.length (retained u r))).
  { intros r pre.
    destruct (store u filepath max_retries e attempt r fs) as [[o0 fs0] evs0] eqn:Hs.
    intros [= -> <- _]. exact (store_returns _ _ _ _ _ Hs). }
  destruct (get e attempt true) as [| |r]; [|discriminate|].
  - destruct (get e attempt false) as [| |r]; try discriminate.
    destruct (raises_for_status r) eqn:Hr; [discriminate|].
    intros H. exists r. split; [reflexivity|]. split; [exact Hr|]. exact (Hstore _ _ H).
  - destruct (raises_for_status r) eqn:Hr.
    + destruct (_ && _); discriminate.
    + intros H. exists r. split; [reflexivity|]. split; [exact Hr|]. exact (Hstore _ _ H).
Qed.

Lemma attempts_from_returns remaining :
  forall attempt fs fs' evs,
    attempts_from u filepath max_retries e remaining attempt fs = (true, fs', evs) ->
    exists a r,
      (attempt <= a < attempt + remaining)%nat
      /\ received e a = Some r /\ raises_for_status r = false
      /\ truncated r = false /\ open_ok e a = true
      /\ fs' !! filepath = Some (retained u r)
      /\ 1000 < Z.of_nat (List.length (retained u r))
      /\ attempts_made evs = S (a - attempt).
Proof.
  induction remaining as [|k IH]; intros attempt fs fs' evs; cbn [attempts_from];
    [discriminate|].
  destruct (attempt_once u filepath max_retries e attempt fs)
    as [[o fs1] evs1] eqn:Ha.
  pose proof (attempt_once_spec _ _ _ _ _ _ _ _ _ Ha) as (Hn & _ & _).
  destruct o.
  - intros [= <- <-].
    destruct (attempt_once_returns _ _ _ _ Ha) as (r & Hr & Hs & Ht & Ho & -> & Hl).
    exists attempt, r. rewrite Hn, Nat.sub_diag, lookup_insert_eq.
    repeat split; auto; lia.
  - destruct (attempts_from u filepath max_retries e k (S attempt) fs1)
      as [[b fs2] evs2] eqn:Hrec.
    intros [= -> <- <-].
    destruct (IH _ _ _ _ Hrec) as (a & r & Ha' & Hr & Hs & Ht & Ho & Hf & Hl & Hc).
    exists a, r. rewrite attempts_made_app, Hn, Hc.
    repeat split; auto; lia.
Qed.

(** X11.  When [download_pdf] returns True, the destination holds
    bytes of the response received in the last attempt made: a response
    that passed the status check and arrived whole.  The file is the body
    without its inspected part (a suffix of the body), and it is longer
    than 1000 bytes. *)
Theorem success_stores_received_bytes fs fs' evs :
  download_pdf u filepath max_retries e fs = (true, fs', evs) ->
  exists a r inspected,
    Z.of_nat a < max_retries
    /\ attempts_made evs = S a
    /\ received e a = Some r /\ raises_for_status r = false
    /\ truncated r = false
    /\ body r = inspected ++ retained u r
    /\ fs' !! filepath = Some (retained u r)
    /\ 1000 < Z.of_nat (List.length (retained u r)).
Proof.
  unfold download_pdf. intros H.
  destruct (attempts_from_returns _ _ _ _ _ H)
    as (a & r & Ha & Hr & Hs & Ht & Ho & Hf & Hl & Hc).
  destruct (retained_suffix r) as [inspected Hb].
  exists a, r, inspected. rewrite Nat.sub_0_r in Hc.
  repeat split; auto. lia.
Qed.

(** ** Waits *)

Lemma total_sleep_app evs1 evs2 :
  total_sleep (evs1 ++ evs2) = total_sleep evs1 + total_sleep evs2.
Proof.
  induction evs1 as [|ev evs1 IH]; [reflexivity|].
  destruct ev; cbn [app total_sleep]; lia.
Qed.

Lemma sleeps_made_app evs1 evs2 :
  sleeps_made (evs1 ++ evs2) = (sleeps_made evs1 + sleeps_made evs2)%nat.
Proof. unfold sleeps_made. now rewrite List.filter_app, List.length_app. Qed.

(** An attempt that receives nothing ends in the exception clause. *)
Lemma attempt_unanswered attempt fs :
  received e attempt = None ->
  exists evs,
    attempt_once u filepath max_retries e attempt fs
    = (NextAttempt, delete filepath fs, evs)
    /\ schedule evs
       = Attempt (Z.of_nat attempt + 1)
         :: (if Z.of_nat attempt <? max_retries - 1
             then [Sleep (2 ^ Z.of_nat attempt)] else []).
Proof.
  unfold received, attempt_once, on_exception.
  destruct (get e attempt true) as [| |r]; [| |discriminate].
  - destruct (get e attempt false) as [| |r]; try discriminate;
      intros _; eexists; (split; [reflexivity|]);
      rewrite schedule_app; now destruct (_ <? _).
  - intros _. eexists. split; [reflexivity|].
    rewrite schedule_app. now destruct (_ <? _).
Qed.

Lemma unanswered_from remaining :
  (forall a, received e a = None) ->
  forall attempt fs,
    exists fs' evs,
      attempts_from u filepath max_retries e remaining attempt fs = (false, fs', evs)
      /\ schedule evs
         = flat_map
             (fun a => Attempt (Z.of_nat a + 1)
                       :: (if Z.of_nat a <? max_retries - 1
                           then [Sleep (2 ^ Z.of_nat a)] else []))
             (seq attempt remaining).
Proof.
  intros Hnone. induction remaining as [|k IH]; intros attempt fs; cbn [attempts_from].
  - now exists fs, [].
  - destruct (attempt_unanswered attempt fs (Hnone attempt)) as (evs1 & -> & Hs1).
    destruct (IH (S attempt) (delete filepath fs)) as (fs2 & evs2 & -> & Hs2).
    exists fs2, (evs1 ++ evs2). split; [reflexivity|].
    rewrite schedule_app, Hs1, Hs2. reflexivity.
Qed.

Lemma total_sleep_schedule evs : total_sleep (schedule evs) = total_sleep evs.
Proof.
  unfold schedule. induction evs as [|ev evs IH]; [reflexivity|].
  destruct ev; cbn [List.filter is_step total_sleep]; lia.
Qed.

(** The waits of the back-off from attempt [a] on, [k] attempts to go. *)
Lemma total_sleep_backoff k :
  forall a, Z.of_nat (a + S k) = max_retries ->
    total_sleep
      (flat_map
         (fun a => Attempt (Z.of_nat a + 1)
                   :: (if Z.of_nat a <? max_retries - 1
                       then [Sleep (2 ^ Z.of_nat a)] else []))
         (seq a (S k)))
    = 2 ^ (max_retries - 1) - 2 ^ Z.of_nat a.
Proof.
  induction k as [|k IH]; intros a Ha.
  - cbn [seq flat_map app]. destruct (_ <? _) eqn:E; [apply Z.ltb_lt in E; lia|].
    cbn [total_sleep app]. replace (max_retries - 1) with (Z.of_nat a) by lia. lia.
  - change (seq a (S (S k))) with (a :: seq (S a) (S k)).
    cbn [flat_map]. destruct (_ <? _) eqn:E; [|apply Z.ltb_ge in E; lia].
    cbn [app total_sleep]. rewrite (IH (S a)) by lia.
    replace (Z.of_nat (S a)) with (Z.of_nat a + 1) by lia.
    rewrite Z.pow_add_r by lia. lia.
Qed.

(** X12.  When no attempt receives a response (every request ends in an
    error), [download_pdf] returns False after exactly [max_retries]
    attempts with the waits 1, 2, 4, ... seconds between them and none
    after the last: for [max_retries >= 1] it has waited
    [2 ** (max_retries - 1) - 1] seconds in all. *)
Theorem unanswered_run_backs_off_exponentially fs :
  (forall a, received e a = None) ->
  exists fs' evs,
    download_pdf u filepath max_retries e fs = (false, fs', evs)
    /\ schedule evs = backoff_schedule max_retries
    /\ (1 <= max_retries -> total_sleep evs = 2 ^ (max_retries - 1) - 1).
Proof.
  intros Hnone. unfold download_pdf, backoff_schedule.
  destruct (unanswered_from (Z.to_nat max_retries) Hnone O fs) as (fs' & evs & Hrun & Hs).
  exists fs', evs. split; [exact Hrun|]. split; [exact Hs|].
  intros Hpos. rewrite <- total_sleep_schedule, Hs.
  destruct (Z.to_nat max_retries) as [|k] eqn:Ek; [lia|].
  rewrite (total_sleep_backoff k O) by lia. reflexivity.
Qed.

(** ** The events of an iteration *)

Lemma user_agent_known attempt : In (user_agent attempt) user_agents.
Proof.
  unfold user_agent. apply nth_In. apply Nat.mod_upper_bound. discriminate.
Qed.

Lemma attempt_once_events attempt fs o fs' evs :
  attempt_once u filepath max_retries e attempt fs = (o, fs', evs) ->
  iteration_events max_retries e attempt o evs.
Proof.
  unfold attempt_once, store, inspect, on_exception, iteration_events.
  repeat (cbv beta iota zeta;
          match goal with
          | |- context [match ?x with _ => _ end] =>
              lazymatch x with
              | context [match _ with _ => _ end] => fail
              | _ => destruct x eqn:?
              end
          end);
  cbv beta iota zeta; intros [= <- <- <-];
  (split; [cbn; lia|]);
  (split; [|split; [cbn; lia|]]).
  all: try (intros d Hd; cbn in Hd;
            repeat match goal with
            | H : _ \/ _ |- _ => destruct H
            | H : False |- _ => destruct H
            | H : @eq event _ _ |- _ =>
                first [discriminate H | inversion H; subst; clear H]
            | H : (_ && _) = true |- _ => apply andb_prop in H as [? ?]
            | H : (_ <? _) = true |- _ => apply Z.ltb_lt in H
            end;
            (split; [auto | split; [lia | reflexivity]])).
  all: intros ua v Hr; cbn in Hr;
       repeat match goal with
       | H : _ \/ _ |- _ => destruct H
       | H : False |- _ => destruct H
       | H : @eq event _ _ |- _ =>
           first [discriminate H | inversion H; subst; clear H]
       end;
       (split; [reflexivity | intros; congruence]).
Qed.

Lemma requests_made_app evs1 evs2 :
  requests_made (evs1 ++ evs2) = (requests_made evs1 + requests_made evs2)%nat.
Proof. unfold requests_made. now rewrite List.filter_app, List.length_app. Qed.

Lemma sleeps_made_positive d evs : In (Sleep d) evs -> (1 <= sleeps_made evs)%nat.
Proof.
  unfold sleeps_made. intros H.
  assert (Hin : In (Sleep d) (List.filter is_sleep evs)) by (apply filter_In; now split).
  destruct (List.filter is_sleep evs); [destruct Hin | cbn; lia].
Qed.

(** The loop: fewer waits than attempts when it runs to the last
    iteration, every wait is 5 seconds or a power of two, at most two
    requests per attempt, all with a known user agent, unverified only
    after an SSL error. *)
Lemma attempts_from_events remaining :
  forall attempt fs ok fs' evs,
    attempts_from u filepath max_retries e remaining attempt fs = (ok, fs', evs) ->
    (remaining <> O -> Z.of_nat (attempt + remaining) = max_retries ->
     (sleeps_made evs < attempts_made evs)%nat)
    /\ (forall d, In (Sleep d) evs ->
          d = 5 \/ exists i, 0 <= i < max_retries - 1 /\ d = 2 ^ i)
    /\ (requests_made evs <= 2 * attempts_made evs)%nat
    /\ (forall ua v, In (Request ua v) evs ->
          In ua user_agents /\ (v = false -> exists a, get e a true = SSLError)).
Proof.
  induction remaining as [|k IH]; intros attempt fs ok fs' evs; cbn [attempts_from].
  - intros [= <- <- <-]. split; [intros H; now destruct H|].
    split; [intros d []|]. split; [cbn; lia | intros ua v []].
  - destruct (attempt_once u filepath max_retries e attempt fs)
      as [[o fs1] evs1] eqn:Ha.
    pose proof (attempt_once_spec _ _ _ _ _ _ _ _ _ Ha) as (Hn & _ & _).
    pose proof (attempt_once_events _ _ _ _ _ Ha) as (Hs1 & Hd1 & Hr1 & Hu1).
    assert (Hd1' : forall d, In (Sleep d) evs1 ->
              d = 5 \/ exists i, 0 <= i < max_retries - 1 /\ d = 2 ^ i).
    { intros d Hd. destruct (Hd1 d Hd) as ([-> | ->] & Hlt & _); [now left|].
      right. exists (Z.of_nat attempt). split; [lia | reflexivity]. }
    assert (Hu1' : forall ua v, In (Request ua v) evs1 ->
              In ua user_agents /\ (v = false -> exists a, get e a true = SSLError)).
    { intros ua v Hr. destruct (Hu1 ua v Hr) as [-> Hv].
      split; [apply user_agent_known|]. intros Hf. exists attempt. auto. }
    destruct o.
    + intros [= <- <- <-]. split; [|split; [exact Hd1' | split; [lia | exact Hu1']]].
      intros _ _. rewrite Hn.
      destruct (sleeps_made evs1) as [|n] eqn:Es; [lia|].
      assert (Hin : exists d, In (Sleep d) evs1).
      { unfold sleeps_made in Es.
        destruct (List.filter is_sleep evs1) as [|ev l] eqn:Ef; [discriminate|].
        assert (Hev : In ev (List.filter is_sleep evs1)) by (rewrite Ef; now left).
        apply filter_In in Hev as [Hev Hsl]. destruct ev; try discriminate. eauto. }
      destruct Hin as [d Hd]. destruct (Hd1 d Hd) as (_ & _ & Ho). discriminate.
    + destruct (attempts_from u filepath max_retries e k (S attempt) fs1)
        as [[b fs2] evs2] eqn:Hrec.
      destruct (IH _ _ _ _ _ Hrec) as (Hlt2 & Hd2 & Hr2 & Hu2).
      pose proof (attempts_from_spec _ _ _ _ _ _ _ _ _ _ Hrec) as (_ & _ & _ & _ & Hzero).
      intros [= <- <- <-].
      rewrite sleeps_made_app, attempts_made_app, requests_made_app, Hn.
      split; [|split; [|split; [lia|]]].
      * intros _ Hmax. destruct k as [|k'].
        -- destruct (Hzero eq_refl) as (_ & _ & ->).
           destruct (sleeps_made evs1) as [|n] eqn:Es; [cbn; lia|].
           exfalso.
           assert (Hin : exists d, In (Sleep d) evs1).
           { unfold sleeps_made in Es.
             destruct (List.filter is_sleep evs1) as [|ev l] eqn:Ef; [discriminate|].
             assert (Hev : In ev (List.filter is_sleep evs1)) by (rewrite Ef; now left).
             apply filter_In in Hev as [Hev Hsl]. destruct ev; try discriminate. eauto. }
           destruct Hin as [d Hd]. destruct (Hd1 d Hd) as (_ & Hlt & _). lia.
        -- assert (sleeps_made evs2 < attempts_made evs2)%nat
             by (apply Hlt2; [discriminate | lia]).
           lia.
      * intros d Hd. apply in_app_or in Hd as [Hd | Hd]; auto.
      * intros ua v Hr. apply in_app_or in Hr as [Hr | Hr]; auto.
Qed.

(** X13.  [download_pdf] waits only between attempts: a run with
    [max_retries >= 1] has fewer waits than attempts (none after the
    last attempt, none after a success), and each wait lasts 5 seconds
    or [2 ** i] seconds for an attempt index [i < max_retries - 1]. *)
Theorem waits_only_between_attempts fs ok fs' evs :
  download_pdf u filepath max_retries e fs = (ok, fs', evs) ->
  1 <= max_retries ->
  (sleeps_made evs < attempts_made evs)%nat
  /\ (forall d, In (Sleep d) evs ->
        d = 5 \/ exists i, 0 <= i < max_retries - 1 /\ d = 2 ^ i).
Proof.
  unfold download_pdf. intros H Hpos.
  destruct (attempts_from_events _ _ _ _ _ _ H) as (Hlt & Hd & _ & _).
  split; [apply Hlt; lia | exact Hd].
Qed.

(** X14.  [download_pdf] sends at most two requests per attempt, each
    with one of the four user agents of its table, and it sends a request
    with certificate verification switched off only in a run in which a
    verified request ended in an SSL error. *)
Theorem requests_are_bounded_and_verified fs ok fs' evs :
  download_pdf u filepath max_retries e fs = (ok, fs', evs) ->
  (requests_made evs <= 2 * attempts_made evs)%nat
  /\ (forall ua v, In (Request ua v) evs ->
        In ua user_agents /\ (v = false -> exists a, get e a true = SSLError)).
Proof.
  unfold download_pdf. intros H.
  destruct (attempts_from_events _ _ _ _ _ _ H) as (_ & _ & Hr & Hu).
  now split.
Qed.

End FetcherExtras.

Section FetcherExtrasWitnesses.
Import PyStr Fetcher.

Lemma success_stores_received_bytes_witness :
  exists a r inspected,
    Z.of_nat a < 3
    /\ attempts_made [Attempt 1; Request (user_agent 0) true; Sleep 5;
                      Attempt 2; Request (user_agent 1) true; Sleep 5;
                      Attempt 3; Request (user_agent 2) true] = S a
    /\ received forbidden_twice a = Some r /\ raises_for_status r = false
    /\ truncated r = false
    /\ body r = inspected ++ retained "https://example.org/article/1" r
    /\ (<["paper.pdf"%string := sample_body]> ∅ : files) !! "paper.pdf"%string
       = Some (retained "https://example.org/article/1" r)
    /\ 1000 < Z.of_nat (List.length (retained "https://example.org/article/1" r)).
Proof.
  apply (success_stores_received_bytes "https://example.org/article/1" "paper.pdf"
           3 forbidden_twice ∅).
  reflexivity.
Defined.

Lemma unanswered_run_backs_off_exponentially_witness :
  exists fs' evs,
    download_pdf "https://example.org/1.pdf" "paper.pdf" 4 unreachable ∅
    = (false, fs', evs)
    /\ schedule evs = backoff_schedule 4
    /\ (1 <= 4 -> total_sleep evs = 2 ^ (4 - 1) - 1).
Proof.
  apply (unanswered_run_backs_off_exponentially
           "https://example.org/1.pdf" "paper.pdf" 4 unreachable ∅).
  intros a. reflexivity.
Defined.

Lemma waits_only_between_attempts_witness :
  (sleeps_made [Attempt 1; Request (user_agent 0) true; Sleep 1;
                Attempt 2; Request (user_agent 1) true]
   < attempts_made [Attempt 1; Request (user_agent 0) true; Sleep 1;
                    Attempt 2; Request (user_agent 1) true])%nat
  /\ (forall d, In (Sleep d) [Attempt 1; Request (user_agent 0) true; Sleep 1;
                              Attempt 2; Request (user_agent 1) true] ->
        d = 5 \/ exists i, 0 <= i < 2 - 1 /\ d = 2 ^ i).
Proof.
  apply (waits_only_between_attempts "https://example.org/1.pdf" "paper.pdf"
           2 unreachable ∅ false ∅); [reflexivity | lia].
Defined.

Lemma requests_are_bounded_and_verified_witness :
  (requests_made [Attempt 1; Request (user_agent 0) true; Sleep 1;
                  Attempt 2; Request (user_agent 1) true]
   <= 2 * attempts_made [Attempt 1; Request (user_agent 0) true; Sleep 1;
                         Attempt 2; Request (user_agent 1) true])%nat
  /\ (forall ua v, In (Request ua v)
                     [Attempt 1; Request (user_agent 0) true; Sleep 1;
                      Attempt 2; Request (user_agent 1) true] ->
        In ua user_agents
        /\ (v = false -> exists a, get unreachable a true = SSLError)).
Proof.
  apply (requests_are_bounded_and_verified "https://example.org/1.pdf" "paper.pdf"
           2 unreachable ∅ false ∅). reflexivity.
Defined.

End FetcherExtrasWitnesses.

(* ===================================================================== *)
(** * More on the catalog merger *)
(* ===================================================================== *)

Section CatalogExtras.
Import PyStr Catalog.

Lemma has_duplicate_iff data t :
  has_duplicate data t = true <-> In (lower t) (titles data).
Proof.
  unfold has_duplicate, titles, all_records. rewrite existsb_exists. split.
  - intros (g & Hg & Hex). apply existsb_exists in Hex as (p & Hp & Heq).
    apply String.eqb_eq in Heq. apply in_map_iff. exists p. split; [exact Heq|].
    apply in_flat_map. now exists g.
  - intros H. apply in_map_iff in H as (p & Heq & Hp).
    apply in_flat_map in Hp as (g & Hg & Hp). exists g. split; [exact Hg|].
    apply existsb_exists. exists p. split; [exact Hp|]. now apply String.eqb_eq.
Qed.

Lemma find_group_None data k : find_group data k = None -> ~ In k (keys data).
Proof.
  induction data as [|g data IH]; cbn [find_group keys map]; [intros _ []|].
  destruct (year_key_eqb (year g) k) eqn:E; [discriminate|].
  destruct (find_group data k); [discriminate|]. intros _ [H | H].
  - subst k. destruct (year g); cbn in E; [rewrite Z.eqb_refl in E|]; discriminate.
  - now apply IH.
Qed.

(** The two ways an insertion changes the list. *)
Lemma inserted_shape data y fa t doi u data' :
  add_publication_to_json data y fa t doi u = (true, data') ->
  has_duplicate data t = false
  /\ ((find_group data (year_category y) = None
       /\ data' = data ++ [ {| year := year_category y;
                               publications := Some [new_publication y fa t u] |} ])
      \/ (exists i g pubs,
            data !! i = Some g /\ publications g = Some pubs
            /\ data' = take i data
                       ++ {| year := year g;
                             publications := Some (pubs ++ [new_publication y fa t u]) |}
                       :: drop (S i) data)).
Proof.
  unfold add_publication_to_json.
  destruct (has_duplicate data t); [discriminate|]. intros H. split; [reflexivity|].
  revert H. destruct (find_group data (year_category y)) as [i|] eqn:F.
  - destruct (data !! i) as [g|] eqn:Hg; [|discriminate].
    destruct (publications g) as [pubs|] eqn:Hp; [|discriminate].
    intros [= <-]. right. exists i, g, pubs. split; [exact Hg|]. split; [exact Hp|].
    apply insert_take_drop. eapply lookup_lt_Some, Hg.
  - intros [= <-]. now left.
Qed.

Lemma records_of_group g pubs : publications g = Some pubs -> records g = pubs.
Proof. unfold records. now intros ->. Qed.

Lemma all_records_inserted data y fa t doi u data' :
  add_publication_to_json data y fa t doi u = (true, data') ->
  Permutation (all_records data') (all_records data ++ [new_publication y fa t u]).
Proof.
  intros H. destruct (inserted_shape _ _ _ _ _ _ _ H) as (_ & [(_ & ->) | Hin]).
  - unfold all_records. rewrite flat_map_app. reflexivity.
  - destruct Hin as (i & g & pubs & Hg & Hp & ->). clear H.
    pose proof (take_drop_middle data i g Hg) as Hm.
    set (l1 := take i data) in *. set (l2 := drop (S i) data) in *.
    clearbody l1 l2. subst data.
    unfold all_records. rewrite !flat_map_app. cbn [flat_map].
    rewrite (records_of_group g pubs Hp).
    unfold records at 2. cbn [publications default from_option id].
    rewrite <- !app_assoc. apply Permutation_app_head.
    apply Permutation_app_head. apply Permutation_app_comm.
Qed.

(** X15.  A successful insertion only appends: the catalog has one
    more record, the new one, and all others unchanged; no group is
    removed or moved, every group keeps its key and its records in their
    order, with new records only behind them. *)
Theorem insertion_only_appends data y fa t doi u data' :
  add_publication_to_json data y fa t doi u = (true, data') ->
  Permutation (all_records data') (all_records data ++ [new_publication y fa t u])
  /\ (forall j g, data !! j = Some g ->
        exists g' added, data' !! j = Some g' /\ year g' = year g
                         /\ records g' = records g ++ added).
Proof.
  intros H. split; [now apply (all_records_inserted data y fa t doi u)|].
  destruct (inserted_shape _ _ _ _ _ _ _ H) as (_ & [(_ & ->) | Hin]).
  - intros j g Hj. exists g, []. rewrite app_nil_r.
    split; [|now split]. rewrite lookup_app_l; [exact Hj|]. eapply lookup_lt_Some, Hj.
  - destruct Hin as (i & g0 & pubs & Hg & Hp & ->). intros j g Hj.
    assert (Hi : (i < List.length data)%nat) by (eapply lookup_lt_Some, Hg).
    rewrite <- insert_take_drop by exact Hi.
    destruct (Nat.eq_dec i j) as [<- | Hne].
    + rewrite Hg in Hj. injection Hj as <-.
      eexists _, [new_publication y fa t u].
      split; [now apply list_lookup_insert_eq|]. split; [reflexivity|].
      now rewrite (records_of_group g0 pubs Hp).
    + exists g, []. rewrite app_nil_r. split; [|now split].
      now rewrite list_lookup_insert_ne.
Qed.

Lemma titles_inserted data y fa t doi u data' :
  add_publication_to_json data y fa t doi u = (true, data') ->
  Permutation (titles data') (titles data ++ [lower t]).
Proof.
  intros H. unfold titles.
  rewrite (Permutation_map title_key (all_records_inserted _ _ _ _ _ _ _ H)).
  now rewrite List.map_app.
Qed.

Lemma insertion_only_appends_witness :
  let data := [ {| year := Year 2021;
                   publications := Some [new_publication "2021" "Roe" "Earlier" None] |} ] in
  let r := add_publication_to_json data "2021" "Doe" "A Study" "10.1/a" None in
  r.1 = true
  /\ Permutation (all_records r.2)
                 (all_records data ++ [new_publication "2021" "Doe" "A Study" None]).
Proof.
  intros data r. split; [reflexivity|].
  refine (proj1 (insertion_only_appends data "2021" "Doe" "A Study" "10.1/a" None r.2 _)).
  reflexivity.
Defined.

Lemma add_keeps_titles_distinct data y fa t doi u :
  List.NoDup (titles data) ->
  List.NoDup (titles (add_publication_to_json data y fa t doi u).2).
Proof.
  intros Hnd.
  destruct (add_publication_to_json data y fa t doi u) as [[|] data'] eqn:H.
  - cbn [snd]. eapply Permutation_NoDup.
    + symmetry. etransitivity; [apply (titles_inserted _ _ _ _ _ _ _ H)|].
      symmetry. apply Permutation_cons_append.
    + constructor; [|exact Hnd].
      destruct (inserted_shape _ _ _ _ _ _ _ H) as (Hdup & _).
      intros Hin. apply has_duplicate_iff in Hin. congruence.
  - pose proof (rejected_unchanged data y fa t doi u) as Hr.
    rewrite H in Hr. cbn [fst snd] in *. now rewrite Hr.
Qed.

(** X16.  The merge keeps a catalog free of duplicate titles: if no
    two records of the catalog have the same lower-cased title, this
    still holds after [add_publication_to_json], whatever it returns. *)
Theorem merge_keeps_titles_distinct data y fa t doi u :
  List.NoDup (titles data) ->
  List.NoDup (titles (add_publication_to_json data y fa t doi u).2).
Proof. apply add_keeps_titles_distinct. Qed.

Lemma merge_keeps_titles_distinct_witness :
  List.NoDup (titles (add_publication_to_json
                   [ {| year := Older;
                        publications := Some [new_publication "2021" "Doe" "A Study" None] |} ]
                   "2023" "Roe" "Another Study" "10.1/b" None).2).
Proof.
  apply merge_keeps_titles_distinct.
  repeat constructor. intros [].
Defined.

(** X17.  The merge keeps the group keys distinct: in a catalog with
    one group per key, [add_publication_to_json] never creates a second
    group for a key. *)
Theorem merge_keeps_one_group_per_key data y fa t doi u :
  List.NoDup (keys data) ->
  List.NoDup (keys (add_publication_to_json data y fa t doi u).2).
Proof.
  intros Hnd.
  destruct (add_publication_to_json data y fa t doi u) as [[|] data'] eqn:H.
  - cbn [snd]. destruct (inserted_shape _ _ _ _ _ _ _ H) as (_ & [(Hf & ->) | Hin]).
    + unfold keys. rewrite List.map_app. cbn [map year].
      eapply Permutation_NoDup; [apply Permutation_cons_append|].
      constructor; [now apply find_group_None | exact Hnd].
    + destruct Hin as (i & g & pubs & Hg & Hp & ->).
      rewrite <- (take_drop_middle data i g Hg) in Hnd.
      unfold keys in *. rewrite List.map_app in *. exact Hnd.
  - pose proof (rejected_unchanged data y fa t doi u) as Hr.
    rewrite H in Hr. cbn [fst snd] in *. now rewrite Hr.
Qed.

Lemma merge_keeps_one_group_per_key_witness :
  List.NoDup (keys (add_publication_to_json
                 [ {| year := Older;
                      publications := Some [new_publication "2021" "Doe" "A Study" None] |} ]
                 "2023" "Roe" "Another Study" "10.1/b" None).2).
Proof.
  apply merge_keeps_one_group_per_key.
  repeat constructor. intros [].
Defined.

(** X18.  In a catalog whose groups all have their publications list,
    a record is inserted exactly when no record has the same lower-cased
    title; the catalog after the call again has all its lists. *)
Theorem inserted_iff_title_is_new data y fa t doi u :
  complete data ->
  ((add_publication_to_json data y fa t doi u).1 = true
   <-> ~ In (lower t) (titles data))
  /\ complete (add_publication_to_json data y fa t doi u).2.
Proof.
  intros Hc. unfold add_publication_to_json.
  destruct (has_duplicate data t) eqn:Hd.
  - cbn [fst snd]. split; [|exact Hc]. split; [discriminate|].
    intros Hn. exfalso. apply Hn. now apply has_duplicate_iff.
  - assert (Hnew : ~ In (lower t) (titles data)).
    { intros Hin. apply has_duplicate_iff in Hin. congruence. }
    destruct (find_group data (year_category y)) as [i|] eqn:F.
    + destruct (find_group_Some _ _ _ F) as (g & Hg & _). rewrite Hg.
      assert (Hgc : publications g <> None).
      { unfold complete in Hc. rewrite List.Forall_forall in Hc. apply Hc.
        apply list_elem_of_In. eapply list_elem_of_lookup_2, Hg. }
      destruct (publications g) as [pubs|]; [|contradiction].
      cbn [fst snd]. split; [now split|].
      unfold complete. rewrite insert_take_drop by (eapply lookup_lt_Some, Hg).
      rewrite <- (take_drop_middle data i g Hg) in Hc. unfold complete in Hc.
      apply Forall_app in Hc as [Hc1 Hc2]. apply Forall_app. split; [exact Hc1|].
      apply Forall_cons in Hc2 as [_ Hc2]. apply Forall_cons. now split.
    + cbn [fst snd]. split; [now split|].
      unfold complete. apply Forall_app. split; [exact Hc|].
      apply Forall_cons. split; [discriminate | constructor].
Qed.

Lemma inserted_iff_title_is_new_witness :
  complete sample_catalog
  /\ (add_publication_to_json sample_catalog "2023" "Poe" "EARLY work" "10.1/c" None).1
     = false
  /\ In (lower "EARLY work") (titles sample_catalog)
  /\ (add_publication_to_json sample_catalog "2024" "Poe" "Late Work" "10.1/d" None).1
     = true
  /\ complete
       (add_publication_to_json sample_catalog "2024" "Poe" "Late Work" "10.1/d" None).2.
Proof.
  assert (Hc : complete sample_catalog) by (repeat constructor; discriminate).
  split; [exact Hc|].
  pose proof (inserted_iff_title_is_new sample_catalog
                "2023" "Poe" "EARLY work" "10.1/c" None Hc) as [Hdup _].
  pose proof (inserted_iff_title_is_new sample_catalog
                "2024" "Poe" "Late Work" "10.1/d" None Hc) as [Hnew Hcomplete].
  assert (Hin : In (lower "EARLY work") (titles sample_catalog))
    by (right; right; left; reflexivity).
  split; [|split; [exact Hin | split; [|exact Hcomplete]]].
  - destruct (add_publication_to_json sample_catalog "2023" "Poe" "EARLY work"
                "10.1/c" None).1 eqn:E; [|reflexivity].
    now destruct (proj1 Hdup eq_refl).
  - apply Hnew. intros [H | [H | [H | []]]]; discriminate H.
Defined.

(** X19.  After a record has been inserted, a second merge of a title
    that differs from it only in letter case is refused, whatever its
    year, author, identifier and URL are, and leaves the catalog as the
    first merge made it. *)
Theorem second_merge_is_refused data y fa t doi u data' t' y' fa' doi' u' :
  add_publication_to_json data y fa t doi u = (true, data') ->
  lower t' = lower t ->
  add_publication_to_json data' y' fa' t' doi' u' = (false, data').
Proof.
  intros H Hl. unfold add_publication_to_json at 1.
  assert (Hd : has_duplicate data' t' = true).
  { apply has_duplicate_iff. rewrite Hl.
    eapply Permutation_in; [symmetry; apply (titles_inserted _ _ _ _ _ _ _ H)|].
    apply in_or_app. right. now left. }
  now rewrite Hd.
Qed.

Lemma second_merge_is_refused_witness :
  add_publication_to_json
    [ {| year := Older;
         publications := Some [new_publication "2021" "Doe" "A Study" None] |} ]
    "2023" "Doe" "a STUDY" "10.1/a" None
  = (false,
     [ {| year := Older;
          publications := Some [new_publication "2021" "Doe" "A Study" None] |} ]).
Proof.
  apply (second_merge_is_refused [] "2021" "Doe" "A Study" "10.1/a" None);
    reflexivity.
Defined.

End CatalogExtras.

(* ===================================================================== *)
(** * More on persistence *)
(* ===================================================================== *)

Section PersistenceExtras.
Import PyStr Catalog.

Lemma sorted_fixed l : StronglySorted key_ge l -> sort_desc l = l.
Proof.
  induction 1 as [|h t Ht IH Hh]; [reflexivity|].
  cbn [sort_desc foldr]. fold (sort_desc t). rewrite IH.
  destruct t as [|x t']; [reflexivity|]. cbn [insert_desc].
  apply Forall_cons in Hh as [Hx _]. unfold key_ge in Hx. now rewrite Hx.
Qed.

Lemma saved_is_sorted data filepath e fs data' fs' :
  save_publications_json data filepath e fs = (true, data', fs') ->
  data' = sort_desc data /\ fs' !! filepath = Some (Json data').
Proof.
  unfold save_publications_json.
  destruct (fs !! filepath); [destruct (rename_ok e)|];
    try discriminate; destruct (open_ok e); try discriminate;
    destruct (dump_ok e); try discriminate;
    intros [= <- <-]; split; try reflexivity; apply lookup_insert_eq.
Qed.

(** X20.  Once a catalog has been saved, saving it again never changes
    the order of its groups, whatever the path and the outcome of the
    second save are. *)
Theorem saved_order_is_final data filepath e fs data' fs' :
  save_publications_json data filepath e fs = (true, data', fs') ->
  forall filepath2 e2 fs2,
    (save_publications_json data' filepath2 e2 fs2).1.2 = data'.
Proof.
  intros H filepath2 e2 fs2. destruct (saved_is_sorted _ _ _ _ _ _ H) as [-> _].
  pose proof (sorted_fixed _ (sort_desc_sorted data)) as Hfix.
  unfold save_publications_json.
  destruct (fs2 !! filepath2); [destruct (rename_ok e2)|];
    try reflexivity; destruct (open_ok e2); [destruct (dump_ok e2)| |destruct (dump_ok e2)|];
    exact Hfix.
Qed.

Lemma saved_order_is_final_witness :
  let e := {| now := "20240101_120000"; rename_ok := true; open_ok := true;
              dump_ok := true |} in
  let data := [ {| year := Older; publications := Some [] |};
                {| year := Year 2024; publications := Some [] |} ] in
  let saved := save_publications_json data "publications.json" e ∅ in
  saved.1.1 = true
  /\ (save_publications_json saved.1.2 "copy.json" e saved.2).1.2 = saved.1.2.
Proof.
  intros e data saved. split; [reflexivity|].
  apply (saved_order_is_final data "publications.json" e ∅ saved.1.2 saved.2).
  reflexivity.
Defined.

(** X21.  The sort of [save_publications_json] is stable: in the saved
    list the groups that share a key are in the order they had before
    (so are several "older" groups of a loaded catalog). *)
Theorem saved_order_is_stable data filepath e fs data' fs' :
  save_publications_json data filepath e fs = (true, data', fs') ->
  forall k,
    List.filter (fun g => year_key_eqb (year g) k) data'
    = List.filter (fun g => year_key_eqb (year g) k) data.
Proof.
  intros H k. destruct (saved_is_sorted _ _ _ _ _ _ H) as [-> _].
  apply sort_desc_stable.
Qed.

Lemma saved_order_is_stable_witness :
  let e := {| now := "20240101_120000"; rename_ok := true; open_ok := true;
              dump_ok := true |} in
  let first := {| year := Older; publications := Some [] |} in
  let second := {| year := Older; publications := None |} in
  let data := [ first; {| year := Year 2024; publications := Some [] |}; second ] in
  let saved := save_publications_json data "publications.json" e ∅ in
  saved.1.1 = true
  /\ List.filter (fun g => year_key_eqb (year g) Older) saved.1.2 = [first; second].
Proof.
  intros e first second data saved. split; [reflexivity|].
  apply (saved_order_is_stable data "publications.json" e ∅ saved.1.2 saved.2).
  reflexivity.
Defined.

Lemma backup_path_differs filepath e : backup_path filepath e <> filepath.
Proof.
  unfold backup_path. intros H. apply (f_equal String.length) in H.
  rewrite !length_append in H. cbn [String.length] in H. lia.
Qed.

(** X22.  [save_publications_json] never loses the previous catalog:
    when a file was at the path, after a successful save it is at the
    backup path and the path holds the sorted new catalog; after a
    failed save the old file is still at the path, or it is at the
    backup path while the path is empty or holds an unfinished file.  No
    other file is touched. *)
Theorem save_keeps_previous_catalog data filepath e fs ok data' fs' :
  save_publications_json data filepath e fs = (ok, data', fs') ->
  (forall p, p <> filepath -> p <> backup_path filepath e -> fs' !! p = fs !! p)
  /\ (ok = true -> fs' !! filepath = Some (Json (sort_desc data)))
  /\ (forall old, fs !! filepath = Some old ->
        (ok = true -> fs' !! backup_path filepath e = Some old)
        /\ (ok = false ->
            fs' !! filepath = Some old
            \/ ((fs' !! filepath = None \/ fs' !! filepath = Some Partial)
                /\ fs' !! backup_path filepath e = Some old))).
Proof.
  pose proof (backup_path_differs filepath e) as Hneq.
  unfold save_publications_json. fold (backup_path filepath e).
  destruct (fs !! filepath) as [prev|] eqn:Hf.
  - destruct (rename_ok e).
    + destruct (open_ok e); [destruct (dump_ok e)|]; intros [= <- <- <-].
      * split; [|split].
        -- intros p Hp Hb. now rewrite lookup_insert_ne, lookup_insert_ne, lookup_delete_ne.
        -- intros _. now rewrite lookup_insert_eq.
        -- intros old [= <-]. split; [|discriminate]. intros _.
           rewrite lookup_insert_ne by congruence. apply lookup_insert_eq.
      * split; [|split; [discriminate|]].
        -- intros p Hp Hb. now rewrite lookup_insert_ne, lookup_insert_ne, lookup_delete_ne.
        -- intros old [= <-]. split; [discriminate|]. intros _. right.
           rewrite lookup_insert_eq. split; [now right|].
           rewrite lookup_insert_ne by congruence. apply lookup_insert_eq.
      * split; [|split; [discriminate|]].
        -- intros p Hp Hb. now rewrite lookup_insert_ne, lookup_delete_ne.
        -- intros old [= <-]. split; [discriminate|]. intros _. right.
           rewrite lookup_insert_ne by exact Hneq.
           rewrite lookup_delete_eq, lookup_insert_eq. split; [now left | reflexivity].
    + intros [= <- <- <-]. split; [reflexivity|]. split; [discriminate|].
      intros old Ho. split; [discriminate|]. intros _. left. congruence.
  - destruct (open_ok e); [destruct (dump_ok e)|]; intros [= <- <- <-].
    + split; [|split].
      * intros p Hp _. now rewrite lookup_insert_ne.
      * intros _. now rewrite lookup_insert_eq.
      * intros old Ho. congruence.
    + split; [|split; [discriminate|]].
      * intros p Hp _. now rewrite lookup_insert_ne.
      * intros old Ho. congruence.
    + split; [reflexivity|]. split; [discriminate|]. intros old Ho. congruence.
Qed.

Lemma save_keeps_previous_catalog_witness :
  let e := {| now := "20240101_120000"; rename_ok := true; open_ok := true;
              dump_ok := false |} in
  let new := [ {| year := Year 2024; publications := Some [] |} ] in
  let saved := save_publications_json new "publications.json" e
                 {[ "publications.json"%string := Json sample_catalog ]} in
  saved.1.1 = false
  /\ saved.2 !! "publications.json"%string = Some Partial
  /\ saved.2 !! "publications.json.backup.20240101_120000"%string
     = Some (Json sample_catalog).
Proof.
  intros e new saved. split; [reflexivity|]. split; [reflexivity|].
  assert (Hs : save_publications_json new "publications.json" e
                 {[ "publications.json"%string := Json sample_catalog ]}
               = (saved.1.1, saved.1.2, saved.2)) by reflexivity.
  destruct (proj2 (proj2 (proj2 (save_keeps_previous_catalog
                     new "publications.json" e
                     {[ "publications.json"%string := Json sample_catalog ]}
                     saved.1.1 saved.1.2 saved.2 Hs))
                     (Json sample_catalog) eq_refl) eq_refl) as [H | [_ H]].
  - discriminate H.
  - exact H.
Defined.

End PersistenceExtras.

(* ===================================================================== *)
(** * Properties of the record identifiers *)
(* ===================================================================== *)

Section IdentifierFacts.
Import PyStr Catalog.

Ltac by_cases_on c := destruct c as [[] [] [] [] [] [] [] []]; reflexivity.

Lemma lower_char_idempotent c : lower_char (lower_char c) = lower_char c.
Proof. by_cases_on c. Qed.

Lemma lower_char_underscore c : Ascii.eqb (lower_char c) "_" = Ascii.eqb c "_".
Proof. by_cases_on c. Qed.

Lemma lower_char_alpha c : is_ascii_alpha (lower_char c) = is_ascii_alpha c.
Proof. by_cases_on c. Qed.

Lemma lower_char_alnum c : is_ascii_alnum (lower_char c) = is_ascii_alnum c.
Proof. by_cases_on c. Qed.

Lemma lower_char_space c : isspace (lower_char c) = isspace c.
Proof. by_cases_on c. Qed.

Lemma lower_idempotent s : lower (lower s) = lower s.
Proof.
  induction s as [|c s IH]; [reflexivity|]. cbn [lower].
  now rewrite lower_char_idempotent, IH.
Qed.

Lemma lower_collapse b s : lower (collapse_from b s) = collapse_from b (lower s).
Proof.
  revert b. induction s as [|c s IH]; intros b; [reflexivity|].
  cbn [lower collapse_from]. rewrite lower_char_underscore.
  destruct (Ascii.eqb c "_"); [destruct b|]; cbn [lower]; now rewrite IH.
Qed.

Lemma lower_filter f s :
  (forall c, f (lower_char c) = f c) ->
  lower (filter_chars f s) = filter_chars f (lower s).
Proof.
  intros Hf. induction s as [|c s IH]; [reflexivity|].
  cbn [lower filter_chars]. rewrite Hf. destruct (f c); cbn [lower]; now rewrite IH.
Qed.

Lemma lower_slice_to n s : lower (slice_to n s) = slice_to n (lower s).
Proof.
  revert s. induction n as [|n IH]; intros [|c s]; try reflexivity.
  cbn [lower slice_to]. now rewrite IH.
Qed.

Lemma is_empty_lower s : is_empty (lower s) = is_empty s.
Proof. now destruct s. Qed.

Lemma lower_split_from cur s :
  split_from (lower cur) (lower s) = map lower (split_from cur s).
Proof.
  revert cur. induction s as [|c s IH]; intros cur; cbn [lower split_from].
  - rewrite is_empty_lower. now destruct (is_empty cur).
  - rewrite lower_char_space, is_empty_lower.
    destruct (isspace c).
    + destruct (is_empty cur); cbn [map]; now rewrite <- (IH EmptyString).
    + rewrite <- IH. now rewrite lower_append.
Qed.

Lemma lower_join sep l :
  lower sep = sep -> lower (join sep l) = join sep (map lower l).
Proof.
  intros Hs. induction l as [|w l IH]; [reflexivity|].
  cbn [join map]. destruct l as [|w' l']; [reflexivity|].
  rewrite !lower_append, Hs, IH. reflexivity.
Qed.

(** The identifier built from lower-cased inputs. *)
Lemma generate_publication_id_lower y a t :
  generate_publication_id (lower y) (lower a) (lower t)
  = generate_publication_id y a t.
Proof.
  unfold generate_publication_id.
  set (keep := fun c : ascii => is_ascii_alnum c || isspace c).
  assert (Ha : slice_to 15 (filter_chars is_ascii_alpha (lower a))
               = lower (slice_to 15 (filter_chars is_ascii_alpha a))).
  { rewrite lower_slice_to, lower_filter; [reflexivity | apply lower_char_alpha]. }
  assert (Ht : join "_" (firstn 5 (split (filter_chars keep (lower t))))
               = lower (join "_" (firstn 5 (split (filter_chars keep t))))).
  { rewrite lower_join by reflexivity. rewrite <- List.firstn_map. unfold split.
    rewrite <- (lower_split_from EmptyString). rewrite lower_filter; [reflexivity|].
    intros c. unfold keep. now rewrite lower_char_alnum, lower_char_space. }
  rewrite Ha, Ht. f_equal.
  rewrite <- (lower_idempotent (y +:+ _)). f_equal.
  rewrite !lower_append. reflexivity.
Qed.

(** Inputs with the same lower-case form give the same identifier. *)
Lemma identifier_of_lower y a t y' a' t' :
  lower y = lower y' -> lower a = lower a' -> lower t = lower t' ->
  generate_publication_id y a t = generate_publication_id y' a' t'.
Proof.
  intros Hy Ha Ht.
  rewrite <- (generate_publication_id_lower y a t),
          <- (generate_publication_id_lower y' a' t').
  now rewrite Hy, Ha, Ht.
Qed.

Lemma lower_char_ascii_lower c : lower_char (ascii_lower_char c) = lower_char c.
Proof. by_cases_on c. Qed.

Lemma lower_ascii_lower s : lower (ascii_lower s) = lower s.
Proof.
  induction s as [|c s IH]; [reflexivity|].
  cbn [ascii_lower lower]. now rewrite lower_char_ascii_lower, IH.
Qed.

Lemma same_lower s s' : same_up_to_ascii_case s s' -> lower s = lower s'.
Proof.
  unfold same_up_to_ascii_case. intros H.
  rewrite <- (lower_ascii_lower s), <- (lower_ascii_lower s'). now rewrite H.
Qed.

(** X24.  The record identifier does not depend on the case of the
    letters A-Z: years, authors and titles that differ only in the case
    of these letters give the same identifier. *)
Theorem identifier_ignores_ascii_case y a t y' a' t' :
  same_up_to_ascii_case y y' -> same_up_to_ascii_case a a' ->
  same_up_to_ascii_case t t' ->
  generate_publication_id y a t = generate_publication_id y' a' t'.
Proof.
  intros Hy Ha Ht. apply identifier_of_lower; now apply same_lower.
Qed.

Lemma identifier_ignores_ascii_case_witness :
  generate_publication_id "2023" "Doe" "A Study of Things"
  = generate_publication_id "2023" "DOE" "a study OF things"
  /\ generate_publication_id "2023" "DOE" "a study OF things"
     = "2023_doe_a_study_of_things"%string.
Proof.
  split; [|reflexivity].
  apply identifier_ignores_ascii_case; reflexivity.
Defined.

(** No underscore follows an underscore after the collapse. *)
Lemma collapse_no_leading b s :
  b = true -> startswith (collapse_from b s) "_" = false.
Proof.
  intros ->. induction s as [|c s IH]; [reflexivity|].
  cbn [collapse_from]. destruct (Ascii.eqb c "_") eqn:E; [exact IH|].
  cbn [startswith]. now rewrite E.
Qed.

Lemma collapse_no_double b s : contains (collapse_from b s) "__" = false.
Proof.
  revert b. induction s as [|c s IH]; intros b; [reflexivity|].
  cbn [collapse_from]. destruct (Ascii.eqb c "_") eqn:E.
  - destruct b; [apply IH|]. cbn [contains]. rewrite IH, orb_false_r.
    cbn [startswith]. rewrite E. now apply collapse_no_leading.
  - cbn [contains]. rewrite IH, orb_false_r. cbn [startswith]. now rewrite E.
Qed.

(** X25.  A record identifier is in lower case and never has two
    underscores in a row, whatever year, author and title are. *)
Theorem identifier_is_lower_and_collapsed y a t :
  lower (generate_publication_id y a t) = generate_publication_id y a t
  /\ contains (generate_publication_id y a t) "__" = false.
Proof.
  unfold generate_publication_id, collapse_underscores. split.
  - now rewrite lower_collapse, lower_idempotent.
  - apply collapse_no_double.
Qed.

End IdentifierFacts.

(* ===================================================================== *)
(** * Properties of the batch update *)
(* ===================================================================== *)

Section BatchFacts.
Import PyStr Normalizer Resolver Catalog Batch.

Variable url_origin : string -> option string.
Variable urljoin : string -> string -> option string.

Local Abbreviation row_url := (row_url url_origin urljoin).
Local Abbreviation update_row := (update_row url_origin urljoin).
Local Abbreviation update_rows := (update_rows url_origin urljoin).
Local Abbreviation update_publications_json_file :=
  (update_publications_json_file url_origin urljoin).

Lemma row_url_plausible get doi y fa t :
  plausible_url (new_publication y fa t (row_url get doi)).
Proof.
  unfold plausible_url, new_publication, Batch.row_url. cbn [pub_url].
  destruct (resolve_doi_to_pdf_url _ _ _ _) as [u|]; [|now left].
  destruct u as [|c u]; [now left|]. cbn [is_empty negb andb].
  destruct (is_likely_pdf_url (String c u)) eqn:E; [now right | now left].
Qed.

(** A row that is not added leaves the catalog alone. *)
Lemma update_row_skipped get data r data' :
  update_row get data r = (false, data') -> data' = data.
Proof.
  unfold Batch.update_row. destruct (_ || _); [now intros [= <-]|].
  intros H. pose proof (rejected_unchanged data
    (strip (cell_str (Publication_Year r))) (strip (cell_str (First_Author r)))
    (strip (cell_str (Title r))) (strip (cell_str (DOI r)))
    (row_url get (strip (cell_str (DOI r))))) as Hr.
  rewrite H in Hr. exact (Hr eq_refl).
Qed.

(** A row that is added contributes one record, with a plausible URL. *)
Lemma update_row_added get data r data' :
  update_row get data r = (true, data') ->
  exists pub, Permutation (all_records data') (all_records data ++ [pub])
              /\ plausible_url pub.
Proof.
  unfold Batch.update_row. destruct (_ || _); [discriminate|]. intros H.
  eexists. split; [exact (all_records_inserted _ _ _ _ _ _ _ H)|].
  apply row_url_plausible.
Qed.

Lemma update_row_titles get data r :
  List.NoDup (titles data) -> List.NoDup (titles (update_row get data r).2).
Proof.
  unfold Batch.update_row. destruct (_ || _); [auto|].
  apply add_keeps_titles_distinct.
Qed.

(** What the loop keeps, whatever the rows are. *)
Lemma update_rows_spec net rows :
  forall index added skipped data added' skipped' data',
    update_rows net index rows added skipped data = (added', skipped', data') ->
    (added' + skipped' = added + skipped + List.length rows)%nat
    /\ (added <= added')%nat
    /\ List.length (all_records data')
       = (List.length (all_records data) + (added' - added))%nat
    /\ (added' = added -> data' = data)
    /\ (List.NoDup (titles data) -> List.NoDup (titles data'))
    /\ (Forall plausible_url (all_records data) ->
        Forall plausible_url (all_records data')).
Proof.
  induction rows as [|r rows IH]; intros index added skipped data added' skipped' data';
    cbn [Batch.update_rows].
  - intros [= <- <- <-]. cbn [List.length]. repeat split; auto; lia.
  - destruct (update_row (net index) data r) as [[|] data1] eqn:Hr; intros H;
      destruct (IH _ _ _ _ _ _ _ H) as (Hc & Hle & Hlen & Hsame & Hnd & Hpl);
      pose proof (update_row_titles (net index) data r) as Ht; rewrite Hr in Ht;
      cbn [snd] in Ht.
    + destruct (update_row_added _ _ _ _ Hr) as (pub & Hperm & Hpub).
      cbn [List.length]. split; [lia|]. split; [lia|]. split; [|split; [lia|split]].
      * rewrite Hlen, (Permutation_length Hperm), List.length_app. cbn [List.length]. lia.
      * auto.
      * intros Hall. apply Hpl. rewrite Hperm. apply Forall_app. split; [exact Hall|].
        now constructor.
    + apply update_row_skipped in Hr as ->.
      cbn [List.length]. split; [lia|]. split; [lia|]. split; [exact Hlen|].
      split; [exact Hsame|]. split; [exact Hnd | exact Hpl].
Qed.

(** What [load_publications_json] finds after a save. *)
Lemma load_after_save data filepath e fs ok data' fs' :
  save_publications_json data filepath e fs = (ok, data', fs') ->
  load_publications_json filepath fs' = load_publications_json filepath fs
  \/ load_publications_json filepath fs' = sort_desc data
  \/ load_publications_json filepath fs' = [].
Proof.
  pose proof (backup_path_differs filepath e) as Hneq.
  unfold save_publications_json, load_publications_json. fold (backup_path filepath e).
  destruct (fs !! filepath) as [prev|] eqn:Hf.
  - destruct (rename_ok e); [|intros [= <- <- <-]; left; now rewrite Hf].
    destruct (open_ok e); [destruct (dump_ok e)|]; intros [= <- <- <-].
    + right. left. now rewrite lookup_insert_eq.
    + right. right. now rewrite lookup_insert_eq.
    + right. right. rewrite lookup_insert_ne by exact Hneq. now rewrite lookup_delete_eq.
  - destruct (open_ok e); [destruct (dump_ok e)|]; intros [= <- <- <-].
    + right. left. now rewrite lookup_insert_eq.
    + right. right. now rewrite lookup_insert_eq.
    + left. now rewrite Hf.
Qed.

Lemma all_records_sorted data : Permutation (all_records (sort_desc data)) (all_records data).
Proof.
  unfold all_records. apply Permutation_flat_map. symmetry. apply sort_desc_perm.
Qed.

(** An invariant of the records that holds for the empty catalog and
    does not depend on their order is kept by the whole update. *)
Lemma update_keeps (P : catalog -> Prop) rows path net e fs added skipped fs' :
  P [] ->
  (forall d, P d -> P (sort_desc d)) ->
  (forall index a s d a' s' d',
      update_rows net index rows a s d = (a', s', d') -> P d -> P d') ->
  update_publications_json_file rows path net e fs = (added, skipped, fs') ->
  P (load_publications_json path fs) -> P (load_publications_json path fs').
Proof.
  intros Hnil Hsort Hrows. unfold Batch.update_publications_json_file.
  destruct (Batch.update_rows _ _ _ _ _ _ _ _) as [[a s] d] eqn:Hu.
  destruct (0 <? a)%nat; [|intros [= <- <- <-]; auto].
  destruct (save_publications_json d path e fs) as [[ok d2] fs2] eqn:Hs.
  intros [= <- <- <-] Hp.
  destruct (load_after_save _ _ _ _ _ _ _ Hs) as [-> | [-> | ->]]; auto.
  apply Hsort. exact (Hrows _ _ _ _ _ _ _ Hu Hp).
Qed.

(** X26.  [update_publications_json_file] counts every row exactly
    once, as added or as skipped, and it writes nothing when no row was
    added: the files are then as they were. *)
Theorem every_row_is_counted rows path net e fs added skipped fs' :
  update_publications_json_file rows path net e fs = (added, skipped, fs') ->
  (added + skipped = List.length rows)%nat
  /\ (added = O -> fs' = fs).
Proof.
  unfold Batch.update_publications_json_file.
  destruct (Batch.update_rows _ _ _ _ _ _ _ _) as [[a s] d] eqn:Hu.
  destruct (update_rows_spec _ _ _ _ _ _ _ _ _ Hu) as (Hc & _).
  destruct (0 <? a)%nat eqn:E.
  - destruct (save_publications_json d path e fs) as [[ok d2] fs2].
    intros [= <- <- <-]. split; [lia|]. apply Nat.ltb_lt in E. lia.
  - intros [= <- <- <-]. split; [lia | reflexivity].
Qed.

(** X27.  The batch update keeps the stored catalog free of duplicate
    titles: if no two records of the catalog at the path share a
    lower-cased title before the call, none do afterwards, whatever the
    rows contain and whether or not the save succeeds. *)
Theorem batch_keeps_titles_distinct rows path net e fs added skipped fs' :
  update_publications_json_file rows path net e fs = (added, skipped, fs') ->
  List.NoDup (titles (load_publications_json path fs)) ->
  List.NoDup (titles (load_publications_json path fs')).
Proof.
  apply (update_keeps (fun d => List.NoDup (titles d))).
  - constructor.
  - intros d Hd. eapply Permutation_NoDup; [|exact Hd].
    unfold titles. apply Permutation_map. symmetry. apply all_records_sorted.
  - intros index a s d a' s' d' Hu. apply (update_rows_spec _ _ _ _ _ _ _ _ _ Hu).
Qed.

(** X28.  The batch update never stores a URL that fails the URL-shape
    check: if every record of the catalog at the path has an empty URL
    or one that passes [is_likely_pdf_url], the same holds afterwards. *)
Theorem batch_stores_plausible_urls rows path net e fs added skipped fs' :
  update_publications_json_file rows path net e fs = (added, skipped, fs') ->
  Forall plausible_url (all_records (load_publications_json path fs)) ->
  Forall plausible_url (all_records (load_publications_json path fs')).
Proof.
  apply (update_keeps (fun d => Forall plausible_url (all_records d))).
  - constructor.
  - intros d Hd. now rewrite all_records_sorted.
  - intros index a s d a' s' d' Hu. apply (update_rows_spec _ _ _ _ _ _ _ _ _ Hu).
Qed.

End BatchFacts.

Section BatchWitnesses.
Import PyStr Normalizer Resolver Catalog Batch.

Lemma every_row_is_counted_witness :
  List.length sample_rows = 2%nat
  /\ forall url_origin urljoin,
       let r := update_publications_json_file url_origin urljoin sample_rows
                  "publications.json" offline writable ∅ in
       (r.1.1 + r.1.2 = List.length sample_rows)%nat.
Proof.
  split; [reflexivity|]. intros url_origin urljoin r.
  refine (proj1 (every_row_is_counted url_origin urljoin sample_rows
                   "publications.json" offline writable ∅ r.1.1 r.1.2 r.2 _)).
  reflexivity.
Defined.

Lemma batch_keeps_titles_distinct_witness :
  titles (load_publications_json "publications.json" stored)
  = ["a study"; "another study"; "early work"]%string
  /\ List.NoDup (titles (load_publications_json "publications.json" stored))
  /\ forall url_origin urljoin,
       let r := update_publications_json_file url_origin urljoin more_rows
                  "publications.json" offline writable stored in
       r.1 = (1%nat, 2%nat)
       /\ titles (load_publications_json "publications.json" r.2)
          = ["early work"; "late work"; "a study"; "another study"]%string
       /\ List.NoDup (titles (load_publications_json "publications.json" r.2)).
Proof.
  assert (Hnd : List.NoDup (titles (load_publications_json "publications.json" stored))).
  { repeat constructor; cbn; intros H;
      repeat (destruct H as [H | H]; [discriminate H|]); exact H. }
  split; [reflexivity|]. split; [exact Hnd|].
  intros url_origin urljoin r. split; [reflexivity|]. split; [vm_compute; reflexivity|].
  refine (batch_keeps_titles_distinct url_origin urljoin more_rows
            "publications.json" offline writable stored r.1.1 r.1.2 r.2 _ Hnd).
  reflexivity.
Defined.

Lemma batch_stores_plausible_urls_witness :
  map pub_url (all_records (load_publications_json "publications.json" stored_urls))
  = ["https://example.org/files/0.pdf"]%string
  /\ Forall plausible_url
       (all_records (load_publications_json "publications.json" stored_urls))
  /\ forall url_origin urljoin,
       let r := update_publications_json_file url_origin urljoin url_rows
                  "publications.json" sample_net writable stored_urls in
       resolve_doi_to_pdf_url url_origin urljoin (sample_net 1) "10.1000/2"
       = Some "https://example.org/article/2"%string
       /\ is_likely_pdf_url "https://example.org/article/2" = false
       /\ map pub_url (all_records (load_publications_json "publications.json" r.2))
          = ["https://example.org/files/0.pdf"; "https://example.org/download/1"; ""]%string
       /\ Forall plausible_url
            (all_records (load_publications_json "publications.json" r.2)).
Proof.
  assert (Hp : Forall plausible_url
                 (all_records (load_publications_json "publications.json" stored_urls))).
  { constructor; [right; reflexivity | constructor]. }
  split; [reflexivity|]. split; [exact Hp|].
  intros url_origin urljoin r.
  split; [reflexivity|]. split; [reflexivity|]. split; [vm_compute; reflexivity|].
  refine (batch_stores_plausible_urls url_origin urljoin url_rows
            "publications.json" sample_net writable stored_urls r.1.1 r.1.2 r.2 _ Hp).
  reflexivity.
Defined.

End BatchWitnesses.

(* ===================================================================== *)
(** * Properties of the publisher login *)
(* ===================================================================== *)

Section AuthFacts.
Import PyStr Auth.

(** What the loop over the hidden fields leaves under a name. *)
Lemma fold_add_field_lookup n (l : list input) :
  forall d : fields,
    fold_left add_field (List.filter is_hidden l) d !! n
    = match List.find (named n) (rev l) with
      | Some i => Some (default EmptyString (input_value i))
      | None => d !! n
      end.
Proof.
  induction l as [|x l IH] using rev_ind; intros d; [reflexivity|].
  rewrite List.filter_app, fold_left_app, rev_app_distr.
  cbn [rev List.app List.find List.filter]. unfold named at 1.
  destruct (is_hidden x) eqn:Hh; cbn [andb fold_left]; [|apply IH].
  unfold add_field. destruct (input_name x) as [name|]; [|apply IH].
  destruct (is_empty name) eqn:He; cbn [negb andb]; [apply IH|].
  destruct (String.eqb name n) eqn:E.
  - apply String.eqb_eq in E as ->. now rewrite lookup_insert_eq.
  - apply String.eqb_neq in E. rewrite lookup_insert_ne by exact E. apply IH.
Qed.

Lemma login_data_lookup username password f n :
  login_data username password f !! n
  = match hidden_value n f with
    | Some x => Some x
    | None => credentials username password n
    end.
Proof.
  unfold login_data, hidden_value. rewrite fold_add_field_lookup.
  destruct (List.find (named n) (rev (inputs f))); [reflexivity|].
  cbn [option_map]. unfold credentials.
  destruct (String.eqb n "username") eqn:Eu.
  - apply String.eqb_eq in Eu as ->.
    rewrite lookup_insert_ne by discriminate. now rewrite lookup_insert_eq.
  - apply String.eqb_neq in Eu. destruct (String.eqb n "password") eqn:Ep.
    + apply String.eqb_eq in Ep as ->. now rewrite lookup_insert_eq.
    + apply String.eqb_neq in Ep.
      rewrite !lookup_insert_ne by congruence. apply lookup_empty.
Qed.

Lemma login_action_absolute f : startswith (login_action f) "http" = true.
Proof.
  unfold login_action. cbv zeta.
  destruct (startswith (default "/action/doLogin"%string (form_action f)) "http") eqn:E;
    [exact E | reflexivity].
Qed.

Lemma get_login_page_sends_no_post get page sent u d v :
  get_login_page get = (page, sent) -> ~ In (Post u d v) sent.
Proof.
  unfold get_login_page. destruct (get login_url true); [destruct (get login_url false)| |];
    intros [= <- <-]; cbn [In]; intros H; repeat destruct H as [H|H]; try discriminate; exact H.
Qed.

Variable get : string -> bool -> reply.
Variable post : string -> fields -> bool -> reply.

(** X29.  What [authenticate_rsna] posts: a post is sent only after the
    login page was answered with status 200 and has a login form; it
    goes to an address that starts with "http"; and under every name it
    carries the value of the last hidden field of the form with this
    name (the empty string when the field has no value), or else the
    given user name under "username" and the given password under
    "password", and nothing under any other name.  So a hidden field
    named "password" replaces the password that was passed in. *)
Theorem posted_login_data username password u d v :
  In (Post u d v) (authenticate_rsna get post username password).2 ->
  startswith u "http" = true
  /\ exists page f,
       (get login_url true = Reply page
        \/ get login_url true = SSLError /\ get login_url false = Reply page)
       /\ status_code page = 200
       /\ find_login_form (content page) = Some f
       /\ forall n, d !! n = match hidden_value n f with
                             | Some x => Some x
                             | None => credentials username password n
                             end.
Proof.
  unfold authenticate_rsna.
  destruct (get_login_page get) as [page sent] eqn:Hp.
  pose proof (get_login_page_sends_no_post _ _ _ u d v Hp) as Hno.
  destruct page as [page|]; [|intros H; now destruct (Hno H)].
  destruct (status_code page =? 200) eqn:Hs; cbn [negb];
    [|intros H; now destruct (Hno H)].
  destruct (find_login_form (content page)) as [f|] eqn:Hf;
    [|intros H; now destruct (Hno H)].
  assert (Hpage : get login_url true = Reply page
                  \/ get login_url true = SSLError /\ get login_url false = Reply page).
  { revert Hp. unfold get_login_page.
    destruct (get login_url true); [destruct (get login_url false)| |];
      intros [= <- <-]; auto. }
  assert (Hin : In (Post u d v)
                  (sent ++ [Post (login_action f) (login_data username password f) true;
                            Post (login_action f) (login_data username password f) false]) ->
                u = login_action f /\ d = login_data username password f).
  { intros H. apply in_app_or in H as [H|H]; [now destruct (Hno H)|].
    cbn [In] in H. destruct H as [[= <- <- <-]|[[= <- <- <-]|[]]]; auto. }
  intros H.
  assert (Hud : u = login_action f /\ d = login_data username password f).
  { apply Hin. revert H.
    destruct (post (login_action f) (login_data username password f) true);
      [destruct (post (login_action f) (login_data username password f) false)| |];
      cbn [snd]; intros H; apply in_app_or in H as [H|H]; apply in_or_app; auto;
      right; cbn [In] in *; tauto. }
  destruct Hud as [-> ->]. split; [apply login_action_absolute|].
  exists page, f. split; [exact Hpage|]. split; [now apply Z.eqb_eq|].
  split; [exact Hf|]. apply login_data_lookup.
Qed.

Lemma verdict_true r :
  verdict r = true <->
  status_code r <> 200
  \/ contains (lower (text r)) "logout" = true
  \/ contains (lower (text r)) "sign out" = true
  \/ contains (lower (text r)) "invalid" = false
     /\ contains (lower (text r)) "error" = false.
Proof.
  unfold verdict. destruct (status_code r =? 200) eqn:Hs.
  - apply Z.eqb_eq in Hs.
    destruct (contains (lower (text r)) "logout"); cbn [orb]; [tauto|].
    destruct (contains (lower (text r)) "sign out"); cbn [orb]; [tauto|].
    destruct (contains (lower (text r)) "invalid"); cbn [orb].
    { split; [discriminate|]. intros [H|[H|[H|[H _]]]]; congruence. }
    destruct (contains (lower (text r)) "error").
    { split; [discriminate|]. intros [H|[H|[H|[_ H]]]]; congruence. }
    tauto.
  - apply Z.eqb_neq in Hs. tauto.
Qed.

Lemma last_snoc2 {A} (l : list A) x y : last (l ++ [x; y]) = Some y.
Proof.
  change (l ++ [x; y]) with (l ++ [x] ++ [y]). rewrite app_assoc. apply last_snoc.
Qed.

Lemma get_login_page_last page sent :
  get_login_page get = (page, sent) -> exists u v, last sent = Some (Get u v).
Proof.
  unfold get_login_page. destruct (get login_url true); [destruct (get login_url false)| |];
    intros [= <- <-]; eauto.
Qed.

(** X30.  When [authenticate_rsna] reports success: exactly when its
    last request is a login post that was answered, and the answer
    either has a status other than 200, or mentions "logout" or
    "sign out" (in any case), or mentions neither "invalid" nor
    "error".  In particular an answer with an error status counts as a
    successful login. *)
Theorem authentication_succeeds_iff username password :
  (authenticate_rsna get post username password).1 = true
  <-> exists u d v r,
        last (authenticate_rsna get post username password).2 = Some (Post u d v)
        /\ post u d v = Reply r
        /\ (status_code r <> 200
            \/ contains (lower (text r)) "logout" = true
            \/ contains (lower (text r)) "sign out" = true
            \/ contains (lower (text r)) "invalid" = false
               /\ contains (lower (text r)) "error" = false).
Proof.
  unfold authenticate_rsna.
  destruct (get_login_page get) as [page sent] eqn:Hp.
  destruct (get_login_page_last _ _ Hp) as (gu & gv & Hlast).
  assert (Hget : forall P : string -> fields -> bool -> response -> Prop,
             (exists u d v r, last sent = Some (Post u d v) /\ P u d v r) -> False).
  { intros P (u & d & v & r & H & _). congruence. }
  destruct page as [page|];
    [|split; [discriminate | intros H; destruct (Hget _ H)]].
  destruct (status_code page =? 200); cbn [negb];
    [|split; [discriminate | intros H; destruct (Hget _ H)]].
  destruct (find_login_form (content page)) as [f|];
    [|split; [discriminate | intros H; destruct (Hget _ H)]].
  set (a := login_action f). set (data := login_data username password f).
  destruct (post a data true) as [| |r] eqn:Ht.
  - destruct (post a data false) as [| |r] eqn:Hf; cbn [fst snd]; rewrite last_snoc2.
    + split; [discriminate|]. intros (u & d & v & r & [= <- <- <-] & H & _). congruence.
    + split; [discriminate|]. intros (u & d & v & r & [= <- <- <-] & H & _). congruence.
    + split.
      * intros H. exists a, data, false, r. split; [reflexivity|]. split; [exact Hf|].
        now apply verdict_true.
      * intros (u & d & v & r' & [= <- <- <-] & H & Hv).
        rewrite Hf in H. injection H as <-. now apply verdict_true.
  - cbn [fst snd]. rewrite last_snoc.
    split; [discriminate|]. intros (u & d & v & r & [= <- <- <-] & H & _). congruence.
  - cbn [fst snd]. rewrite last_snoc. split.
    + intros H. exists a, data, true, r. split; [reflexivity|]. split; [exact Ht|].
      now apply verdict_true.
    + intros (u & d & v & r' & [= <- <- <-] & H & Hv).
      rewrite Ht in H. injection H as <-. now apply verdict_true.
Qed.

End AuthFacts.

Section AuthWitnesses.
Import PyStr Auth.

Lemma posted_login_data_witness :
  let d := login_data "reader" "secret" sample_form in
  In (Post "https://pubs.rsna.org/action/doLogin" d true)
     (authenticate_rsna sample_get sample_post "reader" "secret").2
  /\ d !! "password"%string = Some EmptyString
  /\ d !! "username"%string = Some "reader"%string
  /\ d !! "csrf"%string = Some "t0k3n"%string.
Proof.
  intros d.
  assert (H : In (Post "https://pubs.rsna.org/action/doLogin" d true)
                (authenticate_rsna sample_get sample_post "reader" "secret").2).
  { right. left. reflexivity. }
  split; [exact H|].
  destruct (posted_login_data sample_get sample_post "reader" "secret" _ _ _ H)
    as (_ & page & f & [Hg|[Hg _]] & _ & Hf & Hd); [|discriminate].
  injection Hg as <-. injection Hf as <-.
  rewrite !Hd. repeat split; reflexivity.
Defined.

End AuthWitnesses.

